(** * A shallow embedding of the Pusher websocket client (client.go)

    The client owns one control loop ([runLoop]) that serialises every
    mutation of the connection state and of the channel registry.  This
    development embeds the loop as a state-passing program with panics,
    keeps Go's pointer aliasing explicit through two small heaps (one for
    [*Channel], one for [*connection]) and records every externally visible
    action of the loop in an append-only trace. *)

From Stdlib Require Import String Ascii List Bool Arith Lia.
From stdpp Require Import base option list gmap strings.

Local Open Scope string_scope.
Local Open Scope list_scope.

(** ** Data model *)

(** Go's [(T, error)] results. *)
Inductive Result (A : Type) : Type :=
| Ok (a : A)
| Err (e : string).
Arguments Ok {A} a.
Arguments Err {A} e.

(** Modelled from the spec: the [Member] struct is declared outside
    client.go; the spec gives it as the pair userID, userInfo. *)
Record Member : Type := mkMember {
  UserId : string;
  UserInfo : string
}.

(** [type Event struct { Name; Channel; Data }], all strings. *)
Record Event : Type := mkEvent {
  Event_Name : string;
  Event_Channel : string;
  Event_Data : string
}.

(** The zero value of [Event], what [var event Event] holds before decoding. *)
Definition zeroEvent : Event := mkEvent "" "" "".

(** [type AuthFunc func(socketID, channel string) (string, error)]; a
    configuration built by [New] leaves the field nil ([None]). *)
Definition AuthFunc : Type := string -> string -> Result string.

Record ClientConfig : Type := mkConfig {
  Scheme : string;
  Host : string;
  Port : string;
  Key : string;
  Secret : string;
  Auth : option AuthFunc
}.

(** Modelled from the spec: the [Channel] struct is declared outside
    client.go.  client.go reads and writes its fields [Name], [Subscribed]
    and [connection]; the last one is a [*connection], here an address in
    the connection heap. *)
Record Channel : Type := mkChannel {
  Name : string;
  Subscribed : bool;
  ch_connection : option nat
}.

(** Modelled from the spec: the [connection] struct is declared outside
    client.go.  client.go uses its field [socketID], its websocket [ws] and
    its method [send]; the socket itself lives in the trace below. *)
Record connection : Type := mkConnection {
  socketID : string
}.

(** The outbound control frame that [encode] hands to [json.Marshal]:
    [{"event": event, "data": data}] plus ["channel"] when one is given.
    [data] is always a [map[string]string] in client.go.  The model puts
    this structure on the wire in place of its JSON text. *)
Record Frame : Type := mkFrame {
  frame_event : string;
  frame_data : gmap string string;
  frame_channel : option string
}.

(** The [interface{}] values handed to listeners. *)
Inductive Data : Type :=
| DString (s : string)
| DMember (m : Member)
| DMembers (ms : list Member).

(** Everything the control loop does to the outside world. *)
Inductive Effect : Type :=
| EvDial                                          (* dial(config, callbacks) *)
| EvAuth (sid channel : string)                   (* AuthFunc(sid, channel) *)
| EvSend (c : nat) (f : Frame)                    (* connection.send(message) *)
| EvBinding (slot : nat) (d : Data)               (* binding <- data *)
| EvHandler (h : nat) (channel event : string) (d : Data)
| EvWsClose (c : nat)                             (* connection.ws.Close() *)
| EvAck.                                          (* onDisconnect <- true *)

(** The [Client] struct together with the memory it points into and the
    locals of [runLoop] that survive an iteration.
    - [bindings]: [chanbindings], channel name to event name to Go channel;
    - [globalBindings]: the handler addresses used as map keys (Go iterates
      a map in an unspecified order; the model fixes registration order);
    - [connection_]: the embedded [*connection], [None] for nil;
    - [Channels]: [[]*Channel], addresses into [chans];
    - [connectTimer]: [Some d] when armed to fire after [d] seconds. *)
Record Client : Type := mkClient {
  config : ClientConfig;
  bindings : gmap string (gmap string nat);
  globalBindings : list nat;
  connection_ : option nat;
  Connected : bool;
  Channels : list nat;
  UserData : Member;
  chans : list Channel;
  conns : list connection;
  connectTimer : option nat;
  trace : list Effect
}.

Definition set_connection (c : option nat) (s : Client) : Client :=
  mkClient (config s) (bindings s) (globalBindings s) c (Connected s)
    (Channels s) (UserData s) (chans s) (conns s) (connectTimer s) (trace s).

Definition set_Connected (b : bool) (s : Client) : Client :=
  mkClient (config s) (bindings s) (globalBindings s) (connection_ s) b
    (Channels s) (UserData s) (chans s) (conns s) (connectTimer s) (trace s).

Definition set_Channels (l : list nat) (s : Client) : Client :=
  mkClient (config s) (bindings s) (globalBindings s) (connection_ s)
    (Connected s) l (UserData s) (chans s) (conns s) (connectTimer s) (trace s).

Definition set_chans (h : list Channel) (s : Client) : Client :=
  mkClient (config s) (bindings s) (globalBindings s) (connection_ s)
    (Connected s) (Channels s) (UserData s) h (conns s) (connectTimer s) (trace s).

Definition set_conns (h : list connection) (s : Client) : Client :=
  mkClient (config s) (bindings s) (globalBindings s) (connection_ s)
    (Connected s) (Channels s) (UserData s) (chans s) h (connectTimer s) (trace s).

Definition set_connectTimer (t : option nat) (s : Client) : Client :=
  mkClient (config s) (bindings s) (globalBindings s) (connection_ s)
    (Connected s) (Channels s) (UserData s) (chans s) (conns s) t (trace s).

Definition set_globalBindings (g : list nat) (s : Client) : Client :=
  mkClient (config s) (bindings s) g (connection_ s)
    (Connected s) (Channels s) (UserData s) (chans s) (conns s)
    (connectTimer s) (trace s).

(** The trace only ever grows. *)
Definition emits (es : list Effect) (s : Client) : Client :=
  mkClient (config s) (bindings s) (globalBindings s) (connection_ s)
    (Connected s) (Channels s) (UserData s) (chans s) (conns s)
    (connectTimer s) (trace s ++ es).

Definition emit (e : Effect) (s : Client) : Client := emits [e] s.

(** The frames written to sockets, in order. *)
Definition wire (es : list Effect) : list (nat * Frame) :=
  omap (fun e => match e with EvSend c f => Some (c, f) | _ => None end) es.

(** What listeners received, in order. *)
Definition deliveries (es : list Effect) : list Effect :=
  omap (fun e => match e with
                 | EvBinding _ _ | EvHandler _ _ _ _ => Some e
                 | _ => None
                 end) es.

(** ** The collaborators client.go calls into

    JSON, HMAC and the member decoders live outside client.go; they are an
    interface of the development. *)
Class Externals : Type := {
  (** [json.Unmarshal(message, &event)]: the event it leaves behind and
      the error, if any. *)
  json_Unmarshal_Event : string -> Event * option string;
  (** [json.Unmarshal(data, &map[string]string)], error dropped by the caller. *)
  json_Unmarshal_map : string -> gmap string string;
  (** [json.Marshal(self.UserData)]. *)
  json_Marshal_Member : Member -> Result string;
  (** Hex digest of HMAC-SHA256, keyed by the first argument. *)
  hmac_sha256_hex : string -> string -> string;
  (** [unmarshalledMember(data)], error dropped by the caller. *)
  unmarshalledMember : string -> Member;
  (** [unmarshalledMembers(data, myUserID)], error dropped by the caller. *)
  unmarshalledMembers : string -> string -> list Member
}.

(** ** Panicking state monad *)

Inductive Res (A : Type) : Type :=
| Val (a : A) (s : Client)
| Panic (why : string) (s : Client).
Arguments Val {A} a s.
Arguments Panic {A} why s.

Definition M (A : Type) : Type := Client -> Res A.

Definition ret {A} (a : A) : M A := fun s => Val a s.

Definition bind {A B} (m : M A) (k : A -> M B) : M B :=
  fun s => match m s with
           | Val a s' => k a s'
           | Panic w s' => Panic w s'
           end.

Definition panic {A} (why : string) : M A := fun s => Panic why s.
Definition get : M Client := fun s => Val s s.
Definition modify (f : Client -> Client) : M unit := fun s => Val tt (f s).

Notation "'let*' x ':=' m 'in' k" := (bind m (fun x => k))
  (at level 10, x name, m at level 100, k at level 200).
Notation "m ';;' k" := (bind m (fun _ => k))
  (at level 100, k at level 200, right associativity).

(** [for _, x := range l { body }] *)
Fixpoint forEach {A} (l : list A) (body : A -> M unit) : M unit :=
  match l with
  | [] => ret tt
  | x :: l' => body x ;; forEach l' body
  end.

Definition nil_dereference : string := "invalid memory address or nil pointer dereference".

(** [*p] for a [*Channel]. *)
Definition deref (p : nat) : M Channel :=
  fun s => match chans s !! p with
           | Some ch => Val ch s
           | None => Panic nil_dereference s
           end.

(** [self.connection.f]: the address and the struct behind the embedded
    pointer; a nil pointer faults. *)
Definition the_connection : M (nat * connection) :=
  fun s => match connection_ s with
           | Some c => match conns s !! c with
                       | Some k => Val (c, k) s
                       | None => Panic nil_dereference s
                       end
           | None => Panic nil_dereference s
           end.

(** [ch.Subscribed = b] *)
Definition with_Subscribed (b : bool) (ch : Channel) : Channel :=
  mkChannel (Name ch) b (ch_connection ch).

Definition store_Subscribed (p : nat) (b : bool) : M unit :=
  modify (fun s => set_chans (alter (with_Subscribed b) p (chans s)) s).

(** What the channel behind a registry entry reports as its subscription
    status. *)
Definition flag (heap : list Channel) (p : nat) : bool :=
  match heap !! p with
  | Some ch => Subscribed ch
  | None => false
  end.

Definition reports_subscribed (s : Client) (p : nat) : bool := flag (chans s) p.

(** ** client.go, function by function *)

Section Code.
Context `{Ext : Externals}.

(** [strings.Join(elems, sep)] *)
Definition Join (elems : list string) (sep : string) : string :=
  String.concat sep elems.

(** Modelled from the spec: [Channel.isPrivate] and [Channel.isPresence]
    are declared outside client.go; the spec derives the kind from the
    name prefixes [private-] and [presence-]. *)
Definition isPrivate (ch : Channel) : bool := String.prefix "private-" (Name ch).
Definition isPresence (ch : Channel) : bool := String.prefix "presence-" (Name ch).

(** Modelled from the spec: [createAuthString] is declared outside
    client.go; the spec formats the auth field as the application key, a
    colon and the hex digest of HMAC-SHA256 keyed by the application secret
    over the signing string. *)
Definition createAuthString (key secret stringToSign : string) : string :=
  key +:+ ":" +:+ hmac_sha256_hex secret stringToSign.

(** Modelled from the spec: [connection.send] is declared outside
    client.go; the transport's [send(bytes)] writes to the socket of the
    connection it is called on, and a nil connection has none to read. *)
Definition send (message : Frame) : M unit :=
  let* ck := the_connection in
  modify (emit (EvSend (fst ck) message)).

Definition encode (event : string) (data : gmap string string)
    (channel : option string) : Frame :=
  mkFrame event data channel.

Definition decode (message : string) : Event * option string :=
  json_Unmarshal_Event message.

Definition subscribe (channel : nat) : M unit :=
  let* ch := deref channel in
  let payload : gmap string string := {[ "channel" := Name ch ]} in
  let* payload :=
    (if isPrivate ch then
       let* ck := the_connection in
       let* s := get in
       match Auth (config s) with
       | None => panic nil_dereference
       | Some authFunc =>
           modify (emit (EvAuth (socketID (snd ck)) (Name ch))) ;;
           match authFunc (socketID (snd ck)) (Name ch) with
           | Err e => panic e
           | Ok auth => ret (<[ "auth" := auth ]> payload)
           end
       end
     else ret payload) in
  let* payload :=
    (if isPresence ch then
       let* ck := the_connection in
       let* s := get in
       let stringToSign := Join [socketID (snd ck); Name ch] ":" in
       match json_Marshal_Member (UserData s) with
       | Err e => panic e
       | Ok userData =>
           let payload := <[ "channel_data" := userData ]> payload in
           let stringToSign := Join [stringToSign; userData] ":" in
           let authString :=
             createAuthString (Key (config s)) (Secret (config s)) stringToSign in
           ret (<[ "auth" := authString ]> payload)
       end
     else ret payload) in
  let message := encode "pusher:subscribe" payload None in
  send message.

Definition unsubscribe (channel : nat) : M unit :=
  let* ch := deref channel in
  let message := encode "pusher:unsubscribe" {[ "channel" := Name ch ]} None in
  send message ;;
  store_Subscribed channel false.

(** [binding <- data] is an unbuffered send that holds the loop until a
    consumer receives; the model records the hand-off. *)
Definition triggerEventCallback (channel event : string) (data : Data) : M unit :=
  let* s := get in
  match bindings s !! channel with
   | Some evBind =>
       match evBind !! event with
       | Some binding => modify (emit (EvBinding binding data))
       | None => ret tt
       end
   | None => ret tt
   end ;;
  forEach (globalBindings s)
    (fun handler => modify (emit (EvHandler handler channel event data))).

(** [BindGlobal]: [&callback] is the address of a fresh parameter slot on
    every call, so each call adds one key. *)
Definition BindGlobal (s : Client) : nat * Client :=
  let h := length (globalBindings s) in
  (h, set_globalBindings (globalBindings s ++ [h]) s).

(** The part of [Subscribe] that runs on the caller's thread: the first
    channel of the registry carrying the name, or a freshly allocated one.
    The result is the pointer that is both sent on [_subscribe] and
    returned to the caller. *)
Fixpoint lookup_channel (heap : list Channel) (registry : list nat)
    (channel : string) : option nat :=
  match registry with
  | [] => None
  | p :: rest =>
      match heap !! p with
      | Some ch => if String.eqb (Name ch) channel then Some p
                   else lookup_channel heap rest channel
      | None => lookup_channel heap rest channel
      end
  end.

Definition Subscribe (channel : string) (s : Client) : nat * Client :=
  match lookup_channel (chans s) (Channels s) channel with
  | Some p => (p, s)
  | None =>
      (length (chans s), set_chans (chans s ++ [mkChannel channel false None]) s)
  end.

(** [NewWithConfig] up to the point where the loop goroutine is started and
    has created its timer, [time.NewTimer(0)].  [UserData] is a public field
    that callers fill in after construction; the model takes it here. *)
Definition NewWithConfig (c : ClientConfig) (userData : Member) : Client :=
  mkClient c ∅ [] None false [] userData [] [] (Some 0) [].

Definition New (key : string) (userData : Member) : Client :=
  NewWithConfig (mkConfig "wss" "ws.pusherapp.com" "443" key "" None) userData.

(** *** [runLoop]

    One input of the [select]: what was received, and for the timer what
    [dial] then answers. *)
Inductive DialResult : Type := DialOk | DialErr.

Inductive Input : Type :=
| TimerFired (d : DialResult)          (* <-connectTimer.C *)
| SubscribeReq (c : nat)               (* c := <-self._subscribe *)
| UnsubscribeReq (c : string)          (* c := <-self._unsubscribe *)
| OnMessage (message : string)         (* message := <-onMessage *)
| DisconnectReq                        (* <-self._disconnect *)
| OnClose.                             (* <-onClose *)

(** Whether the body of a case falls out of the [select] or returns. *)
Inductive Flow : Type := Continue | Return.

(** Modelled from the spec: [dial] is declared outside client.go.  Whether
    it succeeds is the environment's choice ([DialResult]); the connection
    it returns has no [socketID] yet, the session identifier being known
    only once connection-established is processed. *)
Definition dialled_connection : connection := mkConnection "".

Definition case_connectTimer (d : DialResult) : M Flow :=
  modify (set_connectTimer None) ;;
  modify (emit EvDial) ;;
  match d with
  | DialErr => modify (set_connectTimer (Some 1)) ;; ret Continue
  | DialOk =>
      modify (fun s =>
        set_connection (Some (length (conns s)))
          (set_conns (conns s ++ [dialled_connection]) s)) ;;
      ret Continue
  end.

Definition case_subscribe (c : nat) : M Flow :=
  let* s := get in
  (if Connected s then subscribe c else ret tt) ;;
  modify (fun s => set_Channels (Channels s ++ [c]) s) ;;
  ret Continue.

Definition case_unsubscribe (c : string) : M Flow :=
  let* s := get in
  forEach (Channels s) (fun p =>
    let* ch := deref p in
    if String.eqb (Name ch) c then
      let* s := get in
      match connection_ s with
      | Some _ => unsubscribe p
      | None => ret tt
      end
    else ret tt) ;;
  ret Continue.

Definition case_onMessage (message : string) : M Flow :=
  let event := fst (decode message) in
  let* s := get in
  (if String.eqb (Event_Name event) "pusher:connection_established" then
     let connectionEstablishedData := json_Unmarshal_map (Event_Data event) in
     let* ck := the_connection in
     modify (fun s => set_conns
       (<[ fst ck := mkConnection (default "" (connectionEstablishedData !! "socket_id")) ]>
          (conns s)) s) ;;
     modify (set_Connected true) ;;
     forEach (Channels s) (fun p =>
       let* ch := deref p in
       if negb (Subscribed ch) then subscribe p else ret tt)
   else if String.eqb (Event_Name event) "pusher_internal:subscription_succeeded" then
     forEach (Channels s) (fun p =>
       let* ch := deref p in
       if String.eqb (Name ch) (Event_Channel event) then
         modify (fun s => set_chans
           (<[ p := mkChannel (Name ch) true (connection_ s) ]> (chans s)) s) ;;
         if isPresence ch then
           let* s := get in
           let members := unmarshalledMembers (Event_Data event) (UserId (UserData s)) in
           triggerEventCallback (Event_Channel event)
             "pusher:subscription_succeeded" (DMembers members)
         else ret tt
       else ret tt)
   else if String.eqb (Event_Name event) "pusher_internal:member_added" then
     let member := unmarshalledMember (Event_Data event) in
     triggerEventCallback (Event_Channel event) "pusher:member_added" (DMember member)
   else if String.eqb (Event_Name event) "pusher_internal:member_removed" then
     let member := unmarshalledMember (Event_Data event) in
     triggerEventCallback (Event_Channel event) "pusher:member_removed" (DMember member)
   else
     triggerEventCallback (Event_Channel event) (Event_Name event)
       (DString (Event_Data event))) ;;
  ret Continue.

Definition case_disconnect : M Flow :=
  let* s := get in
  forEach (Channels s) (fun p => store_Subscribed p false) ;;
  let* ck := the_connection in
  modify (emit (EvWsClose (fst ck))) ;;
  modify (set_connection None) ;;
  modify (set_connectTimer None) ;;
  modify (emit EvAck) ;;
  ret Return.

Definition case_onClose : M Flow :=
  let* s := get in
  forEach (Channels s) (fun p => store_Subscribed p false) ;;
  modify (set_connection None) ;;
  modify (set_connectTimer (Some 1)) ;;
  ret Continue.

(** The body that [select] runs for a received input. *)
Definition runLoop_case (i : Input) : M Flow :=
  match i with
  | TimerFired d => case_connectTimer d
  | SubscribeReq c => case_subscribe c
  | UnsubscribeReq c => case_unsubscribe c
  | OnMessage message => case_onMessage message
  | DisconnectReq => case_disconnect
  | OnClose => case_onClose
  end.

End Code.

(** ** Executions of the control loop *)

Section Loop.
Context `{Ext : Externals}.

Inductive Outcome : Type :=
| Running (s : Client)                 (* back at the [select] *)
| Exited (s : Client)                  (* [runLoop] returned *)
| Panicked (why : string) (s : Client). (* the goroutine panicked *)

Definition state_of (o : Outcome) : Client :=
  match o with Running s | Exited s | Panicked _ s => s end.

(** One iteration of the [for { select { ... } }] on a received input. *)
Definition step (i : Input) (s : Client) : Outcome :=
  match runLoop_case i s with
  | Val Continue s' => Running s'
  | Val Return s' => Exited s'
  | Panic w s' => Panicked w s'
  end.

(** The timer case can only be selected while the timer is armed; the
    request and notification channels can deliver at any iteration. *)
Definition ready (i : Input) (s : Client) : bool :=
  match i with
  | TimerFired _ => match connectTimer s with Some _ => true | None => false end
  | _ => true
  end.

(** What callers and the environment do to a client. *)
Inductive Action : Type :=
| ASubscribe (channel : string)        (* Subscribe(channel) *)
| AUnsubscribe (channel : string)      (* Unsubscribe(channel) *)
| ADisconnect                          (* Disconnect() *)
| ABindGlobal                          (* BindGlobal(callback) *)
| ATimer (d : DialResult)              (* the reconnect timer fires *)
| AMessage (message : string)          (* the transport delivers a frame *)
| AClose.                              (* the transport reports closure *)

(** An action carried through to the end of the loop iteration it causes.
    [Subscribe] first runs its caller-side lookup; a timer that is not
    armed does not fire. *)
Definition perform (a : Action) (s : Client) : Outcome :=
  match a with
  | ASubscribe channel =>
      let '(ch, s1) := Subscribe channel s in step (SubscribeReq ch) s1
  | AUnsubscribe channel => step (UnsubscribeReq channel) s
  | ADisconnect => step DisconnectReq s
  | ABindGlobal => Running (snd (BindGlobal s))
  | ATimer d => if ready (TimerFired d) s then step (TimerFired d) s else Running s
  | AMessage message => step (OnMessage message) s
  | AClose => step OnClose s
  end.

(** A whole run; once the loop has returned or panicked nothing further
    is serviced. *)
Fixpoint run (acts : list Action) (s : Client) : Outcome :=
  match acts with
  | [] => Running s
  | a :: rest =>
      match perform a s with
      | Running s' => run rest s'
      | o => o
      end
  end.

(** The frames put on the wire by one action. *)
Definition sent_by (a : Action) (s : Client) : list (nat * Frame) :=
  drop (length (wire (trace s))) (wire (trace (state_of (perform a s)))).

End Loop.

(** ** Vocabulary of the statements

    The notions the theorems below are phrased in: what a statement of
    the loop preserves, the connection state machine of the
    specification, the pending part of the registry, and a finer model
    that tells the instant a request is accepted from the instant its
    case body has run. *)

Section Statements.
Context `{Ext : Externals}.

(** [stable P m]: running [m] from a state satisfying [P] ends, normally or
    by panic, in a state satisfying [P]. *)
Definition stable {A} (P : Client -> Prop) (m : M A) : Prop :=
  forall s, P s ->
    match m s with
    | Val _ s' => P s'
    | Panic _ s' => P s'
    end.

(** The channel heap after [ch.Subscribed = false] for each entry of a list. *)
Definition mark_unsubscribed (h : list Channel) (l : list nat) : list Channel :=
  foldl (fun h p => alter (with_Subscribed false) p h) h l.

(** The authorisation step of a wire subscribe goes through: the callback
    exists and accepts a private channel, the identity of the caller
    serialises for a presence channel. *)
Definition can_sign (s : Client) (sid : string) (ch : Channel) : bool :=
  (if isPrivate ch then
     match Auth (config s) with
     | Some authFunc =>
         match authFunc sid (Name ch) with Ok _ => true | Err _ => false end
     | None => false
     end
   else true)
  &&
  (if isPresence ch then
     match json_Marshal_Member (UserData s) with Ok _ => true | Err _ => false end
   else true).

(** The same for the channel behind a registry entry. *)
Definition signable (s : Client) (sid : string) (p : nat) : bool :=
  match chans s !! p with
  | Some ch => can_sign s sid ch
  | None => false
  end.

(** The registry entries whose channel reports unsubscribed. *)
Definition pending (s : Client) : list nat :=
  List.filter (fun p => negb (reports_subscribed s p)) (Channels s).

(** One subscribe frame for the channel, on the current connection. *)
Definition subscribe_frame_for (c : nat) (name : string) (cf : nat * Frame) : Prop :=
  cf.1 = c /\
  frame_event cf.2 = "pusher:subscribe" /\
  frame_data cf.2 !! "channel" = Some name /\
  frame_channel cf.2 = None.

(** The socketID a connection-established frame carries: the [socket_id]
    entry of its data, the empty string when there is none. *)
Definition carried_socketID (message : string) : string :=
  default "" (json_Unmarshal_map (Event_Data (fst (decode message))) !! "socket_id").

(** The longest prefix of a list of registry entries in which every
    channel can be authorised. *)
Fixpoint authorised_prefix (s : Client) (sid : string) (l : list nat) : list nat :=
  match l with
  | [] => []
  | p :: rest =>
      if signable s sid p then p :: authorised_prefix s sid rest else []
  end.

(** Requests and inbound frames leave the connection handle alone. *)
Definition keeps_handle (i : Input) : bool :=
  match i with
  | SubscribeReq _ | UnsubscribeReq _ | OnMessage _ | TimerFired DialErr => true
  | _ => false
  end.

(** The connection state of the specification.  [Connecting] covers the
    time a dial or a retry is pending, [AwaitingEstablished] the time
    between a successful dial and the connection-established event. *)
Inductive ConnectionState : Type :=
| Disconnected
| Connecting
| AwaitingEstablished
| FullyConnected.

(** The state machine of the specification, driven by what happens to
    the client: a successful dial leads to [AwaitingEstablished],
    connection-established to [FullyConnected], a reported closure back to
    [Connecting], and a disconnect request is final. *)
Definition transition (st : ConnectionState) (a : Action) : ConnectionState :=
  match st, a with
  | (Disconnected | Connecting), ATimer DialOk => AwaitingEstablished
  | (Disconnected | Connecting), ATimer DialErr => Connecting
  | (AwaitingEstablished | FullyConnected), AMessage message =>
      if String.eqb (Event_Name (fst (decode message))) "pusher:connection_established"
      then FullyConnected else st
  | _, AClose => Connecting
  | _, ADisconnect => Disconnected
  | _, _ => st
  end.

(** The state reached by a new client after a sequence of actions. *)
Definition state_after (acts : list Action) : ConnectionState :=
  foldl transition Disconnected acts.


(** The states in which the specification has a live transport. *)
Definition has_transport (st : ConnectionState) : bool :=
  match st with
  | AwaitingEstablished | FullyConnected => true
  | Disconnected | Connecting => false
  end.

(** The handle is nil whenever the specification's state has no transport. *)
Definition handle_agrees (st : ConnectionState) (s : Client) : Prop :=
  has_transport st = false -> connection_ s = None.

(** What [triggerEventCallback] hands out: the per-binding slot when one
    is bound to the channel and event, then every global handler. *)
Definition binding_delivery (s : Client) (channel event : string) (data : Data)
    : list Effect :=
  match bindings s !! channel with
  | Some evBind =>
      match evBind !! event with
      | Some binding => [EvBinding binding data]
      | None => []
      end
  | None => []
  end.

(** Everything one call of [triggerEventCallback] delivers, in order. *)
Definition dispatched (s : Client) (channel event : string) (data : Data)
    : list Effect :=
  binding_delivery s channel event data ++
  map (fun handler => EvHandler handler channel event data) (globalBindings s).

(** The specification's reading of a decode failure: the frame is
    dropped, so neither the connection, nor the channels, nor what
    listeners have received changes. *)
Definition dropped_silently : Prop :=
  forall (s : Client) (message e : string),
    snd (decode message) = Some e ->
    exists s' : Client,
      step (OnMessage message) s = Running s' /\
      connection_ s' = connection_ s /\
      Connected s' = Connected s /\
      conns s' = conns s /\
      chans s' = chans s /\
      Channels s' = Channels s /\
      deliveries (trace s') = deliveries (trace s).

(** The specification's reading of connection-established: whenever the
    event is processed on a held connection, the loop goes on running with
    the socketID recorded and the client fully connected, and has sent one
    subscribe frame for each pending channel. *)
Definition established_subscribes_all_pending : Prop :=
  forall (c : ClientConfig) (userData : Member) (acts : list Action)
         (s : Client) (message : string) (k : nat),
    run acts (NewWithConfig c userData) = Running s ->
    connection_ s = Some k ->
    Event_Name (fst (decode message)) = "pusher:connection_established" ->
    exists s' : Client,
      step (OnMessage message) s = Running s' /\
      conns s' !! k = Some (mkConnection (carried_socketID message)) /\
      Connected s' = true /\
      exists frames : list (nat * Frame),
        wire (trace s') = wire (trace s) ++ frames /\
        Forall2 (fun p cf => exists ch, chans s !! p = Some ch /\
                                        subscribe_frame_for k (Name ch) cf)
                (pending s) frames.

(** Every registry entry points at an allocated channel. *)
Definition registry_valid (s : Client) : Prop :=
  Forall (fun p => p < length (chans s)) (Channels s).

(** [Subscribe], [Unsubscribe] and [Disconnect] end with a send on an
    unbuffered channel.  Such a send completes, and the call returns, at
    the instant the loop's [select] receives the value; the body of the
    selected case runs after that.  The finer model separates the two
    instants: where the loop goroutine stands, ... *)
Inductive LoopPc : Type :=
| AtSelect                       (* blocked in [select] *)
| InCase (i : Input)             (* [i] received, case body not yet run *)
| LoopReturned                   (* [runLoop] has returned *)
| LoopPanicked (why : string).

(** ... the loop together with the client it owns, ... *)
Record Sys : Type := mkSys {
  pc : LoopPc;
  client : Client
}.

(** ... and the two kinds of moves. *)
Inductive Label : Type :=
| Accept (a : Action)            (* the loop receives; a calling thread is released *)
| Finish.                        (* the loop runs the case body to its end *)

(** The input the [select] receives for an action, after the caller-side
    part of [Subscribe]; [None] when nothing can be received. *)
Definition receive (a : Action) (s : Client) : option (Input * Client) :=
  match a with
  | ASubscribe channel =>
      let '(ch, s1) := Subscribe channel s in Some (SubscribeReq ch, s1)
  | AUnsubscribe channel => Some (UnsubscribeReq channel, s)
  | ADisconnect => Some (DisconnectReq, s)
  | ABindGlobal => None
  | ATimer d => if ready (TimerFired d) s then Some (TimerFired d, s) else None
  | AMessage message => Some (OnMessage message, s)
  | AClose => Some (OnClose, s)
  end.

(** Where the loop stands once a case body has run. *)
Definition after (o : Outcome) : Sys :=
  match o with
  | Running s => mkSys AtSelect s
  | Exited s => mkSys LoopReturned s
  | Panicked w s => mkSys (LoopPanicked w) s
  end.

(** A move, when it is possible: the loop receives only at its [select],
    and finishes only a case it has entered. *)
Definition sys_step (l : Label) (x : Sys) : option Sys :=
  match l, pc x with
  | Accept a, AtSelect =>
      match receive a (client x) with
      | Some (i, s) => Some (mkSys (InCase i) s)
      | None => None
      end
  | Finish, InCase i => Some (after (step i (client x)))
  | _, _ => None
  end.

Fixpoint sys_run (ls : list Label) (x : Sys) : option Sys :=
  match ls with
  | [] => Some x
  | l :: rest =>
      match sys_step l x with
      | Some x' => sys_run rest x'
      | None => None
      end
  end.

(** A new client, its loop blocked in [select]. *)
Definition start (c : ClientConfig) (userData : Member) : Sys :=
  mkSys AtSelect (NewWithConfig c userData).

(** The specification's reading of [Disconnect]: whenever the call has
    returned, the loop has torn down and exited and every channel of the
    registry reports unsubscribed. *)
Definition Disconnect_returns_after_teardown : Prop :=
  forall (c : ClientConfig) (userData : Member) (ls : list Label) (x : Sys),
    sys_run ls (start c userData) = Some x ->
    In (Accept ADisconnect) ls ->
    pc x = LoopReturned /\
    Forall (fun p => reports_subscribed (client x) p = false) (Channels (client x)).

(** *** Further vocabulary: the registry by name, the frames, the timer *)

(** The registry entries whose channel carries a given name, in registry
    order; an entry registered twice appears twice. *)
Definition named_in (heap : list Channel) (c : string) (registry : list nat) : list nat :=
  List.filter (fun p => match heap !! p with
                        | Some ch => String.eqb (Name ch) c
                        | None => false
                        end) registry.

Definition named (s : Client) (c : string) : list nat :=
  named_in (chans s) c (Channels s).

(** [ch.Subscribed = true; ch.connection = conn] *)
Definition with_subscription (conn : option nat) (ch : Channel) : Channel :=
  mkChannel (Name ch) true conn.

(** The channel heap after that update for each entry of a list. *)
Definition mark_subscribed (conn : option nat) (h : list Channel) (l : list nat)
    : list Channel :=
  foldl (fun h p => alter (with_subscription conn) p h) h l.

(** The two frames client.go ever builds, neither with a top-level channel. *)
Definition client_frame (cf : nat * Frame) : Prop :=
  (frame_event cf.2 = "pusher:subscribe" \/ frame_event cf.2 = "pusher:unsubscribe") /\
  frame_channel cf.2 = None.

(** The reconnect timer is armed exactly while no connection is held. *)
Definition dial_pending_iff_no_handle (s : Client) : Prop :=
  match connection_ s, connectTimer s with
  | None, Some _ => True
  | Some _, None => True
  | _, _ => False
  end.

(** The names of the allocated channels, by address. *)
Definition names (s : Client) : list string := Name <$> chans s.

(** The names the loop treats as control events. *)
Definition control_event (name : string) : bool :=
  String.eqb name "pusher:connection_established" ||
  String.eqb name "pusher_internal:subscription_succeeded" ||
  String.eqb name "pusher_internal:member_added" ||
  String.eqb name "pusher_internal:member_removed".

(** What one acknowledged entry delivers: the roster, for a presence
    channel only. *)
Definition roster_delivery (s : Client) (channel data : string) : list Effect :=
  if String.prefix "presence-" channel then
    dispatched s channel "pusher:subscription_succeeded"
      (DMembers (unmarshalledMembers data (UserId (UserData s))))
  else [].

(** The actions that deliver a connection-established frame. *)
Definition is_established (a : Action) : bool :=
  match a with
  | AMessage message =>
      String.eqb (Event_Name (fst (decode message))) "pusher:connection_established"
  | _ => false
  end.

End Statements.

(** ** A concrete environment for running the model

    A toy codec stands in for JSON: an inbound frame is the text
    [event|channel|data]; text with fewer than two bars does not decode and
    leaves the zero event behind, as [json.Unmarshal] does for text that is
    not JSON.  Data that opens a brace stands for a JSON object where the
    [Data] field wants a string: [json.Unmarshal] then reports the type
    mismatch, skips that field and fills in the others.  The signing
    primitive is a tagged concatenation. *)
Module Sample.

Fixpoint split_bar (s : string) : option (string * string) :=
  match s with
  | EmptyString => None
  | String c rest =>
      if Ascii.eqb c "|"%char then Some (EmptyString, rest)
      else match split_bar rest with
           | Some (l, r) => Some (String c l, r)
           | None => None
           end
  end.

Definition unmarshal_event (message : string) : Event * option string :=
  match split_bar message with
  | Some (ev, rest) =>
      match split_bar rest with
      | Some (ch, data) =>
          if String.prefix "{" data
          then (mkEvent ev ch "",
                Some "json: cannot unmarshal object into Go struct field Event.data of type string")
          else (mkEvent ev ch data, None)
      | None => (zeroEvent, Some "unexpected end of JSON input")
      end
  | None => (zeroEvent, Some "invalid character")
  end.

#[export] Instance ext : Externals := {|
  json_Unmarshal_Event := unmarshal_event;
  json_Unmarshal_map := fun data => {[ "socket_id" := data ]};
  json_Marshal_Member := fun m => Ok ("user:" +:+ UserId m);
  hmac_sha256_hex := fun secret message => "hmac(" +:+ secret +:+ "," +:+ message +:+ ")";
  unmarshalledMember := fun data => mkMember data "";
  unmarshalledMembers := fun data me => [mkMember me ""; mkMember data ""]
|}.

Definition me : Member := mkMember "42" "".

(** An authorisation callback that signs everything but one channel. *)
Definition authFunc : AuthFunc := fun sid channel =>
  if String.eqb channel "private-denied" then Err "forbidden"
  else Ok ("sig(" +:+ sid +:+ "," +:+ channel +:+ ")").

Definition cfg : ClientConfig :=
  mkConfig "wss" "ws.pusherapp.com" "443" "key" "secret" (Some authFunc).

Definition established : string := "pusher:connection_established||1.1".
Definition succeeded (channel : string) : string :=
  "pusher_internal:subscription_succeeded|" +:+ channel +:+ "|".

Definition fresh : Client := NewWithConfig cfg me.

(** Dialled, three channels requested, connection-established not yet in. *)
Definition awaiting : Client :=
  state_of (run [ATimer DialOk; ASubscribe "updates"; ASubscribe "private-orders";
                 ASubscribe "presence-room"] fresh).

(** The same client once connection-established has been processed. *)
Definition connected : Client :=
  state_of (run [AMessage established] awaiting).

(** A fresh client with one global listener. *)
Definition listening : Client := (BindGlobal fresh).2.

(** A connection-established frame whose data is an object, not a string. *)
Definition mistyped_established : string := "pusher:connection_established||{}".

(** A client made with [New], so without an authorisation callback:
    dialled, with a public, a private and another public channel requested. *)
Definition unauthorised : Client :=
  state_of (run [ATimer DialOk; ASubscribe "updates"; ASubscribe "private-orders";
                 ASubscribe "news"] (New "key" me)).

(** The sample client with three channels requested before any dial. *)
Definition requested : Client :=
  state_of (run [ASubscribe "updates"; ASubscribe "private-orders";
                 ASubscribe "presence-room"] fresh).

End Sample.

(** ** Basic facts about strings, traces and the monad *)

Lemma append_assoc (a b c : string) : (a +:+ b) +:+ c = a +:+ (b +:+ c).
Proof.
  induction a as [|x a IH]; [reflexivity|].
  change (String x ((a +:+ b) +:+ c) = String x (a +:+ (b +:+ c))).
  now rewrite IH.
Qed.

(** No channel name carries both prefixes: they differ at the third letter. *)
Lemma private_not_presence (ch : Channel) :
  isPrivate ch = true -> isPresence ch = false.
Proof.
  unfold isPrivate, isPresence.
  destruct (Name ch) as [|a [|b [|c n]]]; cbn [String.prefix]; try discriminate.
  all: destruct (ascii_dec "p" a) as [<-|]; [|discriminate].
  all: try discriminate.
  all: destruct (ascii_dec "r" b) as [<-|]; [|discriminate].
  all: try discriminate.
  destruct (ascii_dec "i" c) as [<-|]; [|discriminate].
  intros _. destruct (ascii_dec "e" "i") as [E|]; [discriminate E|reflexivity].
Qed.

Lemma emits_nil (s : Client) : emits [] s = s.
Proof. destruct s; unfold emits; simpl. now rewrite app_nil_r. Qed.

Lemma emits_emits (a b : list Effect) (s : Client) :
  emits b (emits a s) = emits (a ++ b) s.
Proof. unfold emits; simpl. now rewrite app_assoc. Qed.

Lemma wire_app (a b : list Effect) : wire (a ++ b) = wire a ++ wire b.
Proof. apply omap_app. Qed.

Lemma forEach_app {A} (l1 l2 : list A) (body : A -> M unit) (s : Client) :
  forEach (l1 ++ l2) body s =
  match forEach l1 body s with
  | Val _ s' => forEach l2 body s'
  | Panic w s' => Panic w s'
  end.
Proof.
  revert s; induction l1 as [|x l1 IH]; intros s; simpl; [reflexivity|].
  unfold bind. destruct (body x s); [apply IH | reflexivity].
Qed.

Lemma forEach_cons {A} (x : A) (l : list A) (body : A -> M unit) (s : Client) :
  forEach (x :: l) body s =
  match body x s with
  | Val _ s' => forEach l body s'
  | Panic w s' => Panic w s'
  end.
Proof. reflexivity. Qed.

(** *** Properties that no statement of the loop breaks *)

Lemma stable_ret {A} P (a : A) : stable P (ret a).
Proof. intros s H; exact H. Qed.

Lemma stable_panic {A} P w : stable P (@panic A w).
Proof. intros s H; exact H. Qed.

Lemma stable_get P : stable P get.
Proof. intros s H; exact H. Qed.

Lemma stable_bind {A B} P (m : M A) (k : A -> M B) :
  stable P m -> (forall a, stable P (k a)) -> stable P (bind m k).
Proof.
  intros Hm Hk s H. unfold bind. specialize (Hm s H).
  destruct (m s) as [a s'|w s']; [apply Hk; exact Hm | exact Hm].
Qed.

Lemma stable_modify P (f : Client -> Client) :
  (forall s, P s -> P (f s)) -> stable P (modify f).
Proof. intros Hf s H; apply Hf, H. Qed.

Lemma stable_forEach {A} P (l : list A) (body : A -> M unit) :
  (forall x, stable P (body x)) -> stable P (forEach l body).
Proof.
  intros Hb; induction l as [|x l IH]; simpl.
  - apply stable_ret.
  - apply stable_bind; [apply Hb | intros _; exact IH].
Qed.

Lemma stable_deref P p : stable P (deref p).
Proof. intros s H; unfold deref. now destruct (chans s !! p). Qed.

Lemma stable_the_connection P : stable P the_connection.
Proof.
  intros s H; unfold the_connection.
  destruct (connection_ s) as [c|]; [|exact H].
  now destruct (conns s !! c).
Qed.

Create HintDb stable discriminated.
#[export] Hint Resolve stable_ret stable_panic stable_get stable_deref
  stable_the_connection : stable.

(** Splits a monadic program along its syntax down to its [modify]
    leaves, which are left as goals about the updating function. *)
Ltac stable_step :=
  match goal with
  | |- stable _ (bind _ _) => apply stable_bind; [|intros ?]
  | |- stable _ (forEach _ _) => apply stable_forEach; intros ?
  | |- stable _ (modify _) => apply stable_modify; intros ? ?
  | |- stable _ (if ?b then _ else _) => destruct b
  | |- stable _ (match ?x with _ => _ end) => destruct x
  | |- stable _ _ => solve [auto with stable]
  end.
Ltac stable_tac := repeat stable_step.

(** Unfolds the monadic plumbing of a statement of the loop. *)
Ltac run_monad :=
  unfold bind, get, ret, modify, panic, deref, the_connection, send, emit; simpl.

(** ** The wire subscribe *)

Section SubscribeFacts.
Context `{Ext : Externals}.

Lemma subscribe_public (s : Client) (p c : nat) (ch : Channel) (k : connection) :
  chans s !! p = Some ch ->
  isPrivate ch = false ->
  isPresence ch = false ->
  connection_ s = Some c ->
  conns s !! c = Some k ->
  subscribe p s =
    Val tt (emits [EvSend c (mkFrame "pusher:subscribe" {[ "channel" := Name ch ]} None)] s).
Proof.
  intros Hp Hpriv Hpres Hc Hk. unfold subscribe.
  repeat (run_monad; rewrite ?Hp, ?Hpriv, ?Hpres, ?Hc, ?Hk). reflexivity.
Qed.

(** With no connection the wire subscribe faults before anything is
    sent or registered, whatever the kind of the channel. *)
Lemma subscribe_nil (s : Client) (p : nat) (ch : Channel) :
  chans s !! p = Some ch ->
  connection_ s = None ->
  subscribe p s = Panic nil_dereference s.
Proof.
  intros Hp Hc. unfold subscribe. run_monad. rewrite Hp.
  destruct (isPrivate ch); repeat (run_monad; rewrite ?Hc); [reflexivity|].
  destruct (isPresence ch); repeat (run_monad; rewrite ?Hc); reflexivity.
Qed.

Lemma subscribe_private
    (s : Client) (p c : nat) (ch : Channel) (k : connection) (authFunc : AuthFunc) :
  chans s !! p = Some ch ->
  isPrivate ch = true ->
  connection_ s = Some c ->
  conns s !! c = Some k ->
  Auth (config s) = Some authFunc ->
  subscribe p s =
    match authFunc (socketID k) (Name ch) with
    | Ok auth =>
        Val tt (emits [EvAuth (socketID k) (Name ch);
                       EvSend c (mkFrame "pusher:subscribe"
                                   (<[ "auth" := auth ]> {[ "channel" := Name ch ]})
                                   None)] s)
    | Err e => Panic e (emits [EvAuth (socketID k) (Name ch)] s)
    end.
Proof.
  intros Hp Hpriv Hc Hk Hauth.
  pose proof (private_not_presence ch Hpriv) as Hpres.
  unfold subscribe.
  repeat (run_monad; rewrite ?Hp, ?Hpriv, ?Hc, ?Hk, ?Hauth).
  destruct (authFunc (socketID k) (Name ch)) as [auth|e]; [|reflexivity].
  repeat (run_monad; rewrite ?Hpres, ?Hc, ?Hk).
  rewrite emits_emits. reflexivity.
Qed.

Lemma subscribe_presence
    (s : Client) (p c : nat) (ch : Channel) (k : connection) (D : string) :
  chans s !! p = Some ch ->
  isPresence ch = true ->
  connection_ s = Some c ->
  conns s !! c = Some k ->
  json_Marshal_Member (UserData s) = Ok D ->
  subscribe p s =
    Val tt (emits [EvSend c (mkFrame "pusher:subscribe"
      (<[ "auth" := createAuthString (Key (config s)) (Secret (config s))
                      (Join [Join [socketID k; Name ch] ":"; D] ":") ]>
         (<[ "channel_data" := D ]> {[ "channel" := Name ch ]}))
      None)] s).
Proof.
  intros Hp Hpres Hc Hk HD.
  assert (isPrivate ch = false) as Hpriv.
  { destruct (isPrivate ch) eqn:E; [|reflexivity].
    apply private_not_presence in E. congruence. }
  unfold subscribe.
  repeat (run_monad; rewrite ?Hp, ?Hpriv, ?Hpres, ?Hc, ?Hk, ?HD).
  reflexivity.
Qed.

(** C8: a wire subscribe for a private-prefixed channel calls the
    caller-supplied authorisation callback on the pair (socketID, channel
    name); the string it returns is stored as is under [auth] in the
    payload of the frame that is sent, and an error from the callback
    panics the loop goroutine before any frame is sent. *)
Theorem private_subscribe_calls_AuthFunc
    (s : Client) (p c : nat) (ch : Channel) (k : connection) (authFunc : AuthFunc) :
  chans s !! p = Some ch ->
  isPrivate ch = true ->
  connection_ s = Some c ->
  conns s !! c = Some k ->
  Auth (config s) = Some authFunc ->
  subscribe p s =
    match authFunc (socketID k) (Name ch) with
    | Ok auth =>
        Val tt (emits [EvAuth (socketID k) (Name ch);
                       EvSend c (mkFrame "pusher:subscribe"
                                   (<[ "auth" := auth ]> {[ "channel" := Name ch ]})
                                   None)] s)
    | Err e => Panic e (emits [EvAuth (socketID k) (Name ch)] s)
    end.
Proof. apply subscribe_private. Qed.

(** C7: a wire subscribe for a presence-prefixed channel [C], on a
    connection whose socketID is [S] and with caller identity serialised
    as [D], sends a payload whose [channel_data] is [D] and whose [auth] is
    the application key, a colon, and the hex HMAC-SHA256 digest, keyed by
    the application secret, of [S:C:D]. *)
Theorem presence_subscribe_signs_locally
    (s : Client) (p c : nat) (ch : Channel) (k : connection) (D : string) :
  chans s !! p = Some ch ->
  isPresence ch = true ->
  connection_ s = Some c ->
  conns s !! c = Some k ->
  json_Marshal_Member (UserData s) = Ok D ->
  exists f : Frame,
    subscribe p s = Val tt (emits [EvSend c f] s) /\
    frame_event f = "pusher:subscribe" /\
    frame_data f !! "channel" = Some (Name ch) /\
    frame_data f !! "channel_data" = Some D /\
    frame_data f !! "auth" =
      Some (Key (config s) +:+ ":" +:+
            hmac_sha256_hex (Secret (config s))
              (socketID k +:+ ":" +:+ Name ch +:+ ":" +:+ D)).
Proof.
  intros Hp Hpres Hc Hk HD. eexists. split.
  - apply subscribe_presence; eassumption.
  - simpl. split; [reflexivity|]. split; [|split].
    + rewrite lookup_insert_ne by discriminate.
      rewrite lookup_insert_ne by discriminate.
      apply lookup_singleton_eq.
    + rewrite lookup_insert_ne by discriminate. apply lookup_insert_eq.
    + rewrite lookup_insert_eq. unfold createAuthString, Join. simpl.
      rewrite append_assoc. reflexivity.
Qed.

End SubscribeFacts.

(** ** Marking the registry unsubscribed *)

Lemma flag_alter_same (h : list Channel) (p : nat) :
  flag (alter (with_Subscribed false) p h) p = false.
Proof.
  unfold flag. rewrite list_lookup_alter_eq.
  now destruct (h !! p).
Qed.

Lemma flag_alter_keep (h : list Channel) (p q : nat) :
  flag h p = false -> flag (alter (with_Subscribed false) q h) p = false.
Proof.
  intros H. destruct (decide (q = p)) as [->|Hne].
  - apply flag_alter_same.
  - unfold flag. now rewrite list_lookup_alter_ne.
Qed.

Lemma mark_unsubscribed_keep (l : list nat) (h : list Channel) (p : nat) :
  flag h p = false -> flag (mark_unsubscribed h l) p = false.
Proof.
  revert h; induction l as [|q l IH]; intros h H; simpl; [exact H|].
  apply IH, flag_alter_keep, H.
Qed.

Lemma mark_unsubscribed_all (l : list nat) (h : list Channel) :
  Forall (fun p => flag (mark_unsubscribed h l) p = false) l.
Proof.
  revert h; induction l as [|q l IH]; intros h; constructor.
  - simpl. apply mark_unsubscribed_keep, flag_alter_same.
  - apply IH.
Qed.

Lemma forEach_store_unsubscribed (l : list nat) (s : Client) :
  forEach l (fun p => store_Subscribed p false) s =
  Val tt (set_chans (mark_unsubscribed (chans s) l) s).
Proof.
  revert s; induction l as [|q l IH]; intros s; simpl.
  - now destruct s.
  - unfold bind, store_Subscribed, modify. rewrite IH. reflexivity.
Qed.

Section Teardown.
Context `{Ext : Externals}.

(** C5: processing a transport-closed notification sets the subscribed
    flag of every channel of the registry to false, drops the connection
    handle (the client leaves the connected state for the connecting one)
    and arms the reconnect timer with the fixed delay of one second; the
    registry itself and the [Connected] flag are left as they were. *)
Theorem transport_closed_schedules_reconnect (s : Client) :
  exists s' : Client,
    step OnClose s = Running s' /\
    Forall (fun p => reports_subscribed s' p = false) (Channels s') /\
    connection_ s' = None /\
    connectTimer s' = Some 1 /\
    Channels s' = Channels s /\
    Connected s' = Connected s /\
    trace s' = trace s.
Proof.
  eexists. split.
  - unfold step, runLoop_case, case_onClose, bind, get.
    rewrite forEach_store_unsubscribed. reflexivity.
  - simpl. split; [apply mark_unsubscribed_all|]. repeat split.
Qed.

(** A disconnect request processed while a transport is held tears the
    client down and leaves the loop. *)
Lemma disconnect_with_transport (s : Client) (c : nat) (k : connection) :
  connection_ s = Some c ->
  conns s !! c = Some k ->
  exists s' : Client,
    step DisconnectReq s = Exited s' /\
    Forall (fun p => reports_subscribed s' p = false) (Channels s') /\
    connection_ s' = None /\
    connectTimer s' = None /\
    Channels s' = Channels s /\
    trace s' = trace s ++ [EvWsClose c; EvAck].
Proof.
  intros Hc Hk. eexists. split.
  - unfold step, runLoop_case, case_disconnect, bind, get.
    rewrite forEach_store_unsubscribed.
    unfold the_connection, modify, ret, emit. simpl. rewrite Hc, Hk. reflexivity.
  - simpl. split; [apply mark_unsubscribed_all|].
    repeat split. now rewrite <- app_assoc.
Qed.


(** C6: [Disconnect()] while the loop holds no connection: on a client
    that has not dialled yet, after a failed dial, and after the transport
    was reported closed.  The request does not complete: the loop panics
    on the nil connection handle, without closing anything, stopping the
    timer or acknowledging. *)
Theorem Disconnect_without_transport_panics (c : ClientConfig) (userData : Member) :
  run [ADisconnect] (NewWithConfig c userData) =
    Panicked nil_dereference (NewWithConfig c userData) /\
  run [ATimer DialErr; ADisconnect] (NewWithConfig c userData) =
    Panicked nil_dereference
      (set_connectTimer (Some 1) (emit EvDial (NewWithConfig c userData))) /\
  run [ATimer DialOk; AClose; ADisconnect] (NewWithConfig c userData) =
    Panicked nil_dereference
      (set_connectTimer (Some 1) (set_connection None
         (set_conns [dialled_connection] (emit EvDial (NewWithConfig c userData))))).
Proof. repeat split. Qed.

End Teardown.

(** ** Connection established *)

Section Established.
Context `{Ext : Externals}.

Lemma subscribe_signed (s : Client) (p c : nat) (ch : Channel) (k : connection) :
  chans s !! p = Some ch ->
  connection_ s = Some c ->
  conns s !! c = Some k ->
  can_sign s (socketID k) ch = true ->
  exists (es : list Effect) (f : Frame),
    subscribe p s = Val tt (emits es s) /\
    wire es = [(c, f)] /\
    subscribe_frame_for c (Name ch) (c, f).
Proof.
  intros Hp Hc Hk Hsign. unfold can_sign in Hsign.
  apply andb_true_iff in Hsign as [Hpriv Hpres].
  unfold subscribe_frame_for.
  destruct (isPrivate ch) eqn:Epriv; [|destruct (isPresence ch) eqn:Epres].
  - destruct (Auth (config s)) as [authFunc|] eqn:Eauth; [|discriminate].
    rewrite (subscribe_private s p c ch k authFunc) by assumption.
    destruct (authFunc (socketID k) (Name ch)) as [auth|e]; [|discriminate].
    eexists _, _. split; [reflexivity|]. split; [reflexivity|]. simpl.
    rewrite lookup_insert_ne by discriminate. rewrite lookup_singleton_eq. auto.
  - destruct (json_Marshal_Member (UserData s)) as [D|e] eqn:ED; [|discriminate].
    rewrite (subscribe_presence s p c ch k D) by assumption.
    eexists _, _. split; [reflexivity|]. split; [reflexivity|]. simpl.
    rewrite !lookup_insert_ne by discriminate. rewrite lookup_singleton_eq. auto.
  - rewrite (subscribe_public s p c ch k) by assumption.
    eexists _, _. split; [reflexivity|]. split; [reflexivity|]. simpl.
    rewrite lookup_singleton_eq. auto.
Qed.

(** The loop over the registry run on connection-established. *)
Lemma established_loop (l : list nat) (s : Client) (c : nat) (k : connection) :
  connection_ s = Some c ->
  conns s !! c = Some k ->
  Forall (fun p => is_Some (chans s !! p)) l ->
  Forall (fun p => signable s (socketID k) p = true)
         (List.filter (fun p => negb (reports_subscribed s p)) l) ->
  exists es : list Effect,
    forEach l (fun p =>
      let* ch := deref p in
      if negb (Subscribed ch) then subscribe p else ret tt) s = Val tt (emits es s) /\
    Forall2 (fun p cf => exists ch, chans s !! p = Some ch /\
                                    subscribe_frame_for c (Name ch) cf)
            (List.filter (fun p => negb (reports_subscribed s p)) l) (wire es).
Proof.
  revert s; induction l as [|p l IH]; intros s Hc Hk Hvalid Hsign.
  - exists []. rewrite emits_nil. split; [reflexivity | constructor].
  - inversion Hvalid as [|? ? [ch Hp] Hvalid']; subst.
    rewrite forEach_cons.
    assert ((let* ch := deref p in
             if negb (Subscribed ch) then subscribe p else ret tt) s =
            if negb (Subscribed ch) then subscribe p s else Val tt s) as ->.
    { unfold bind, deref. rewrite Hp. now destruct (Subscribed ch). }
    assert (reports_subscribed s p = Subscribed ch) as Hflag.
    { unfold reports_subscribed, flag. now rewrite Hp. }
    simpl List.filter in Hsign |- *. rewrite Hflag in Hsign |- *.
    destruct (Subscribed ch) eqn:Hsub; simpl in Hsign |- *.
    + apply IH; assumption.
    + inversion Hsign as [|? ? Hsp Hsign']; subst.
      unfold signable in Hsp. rewrite Hp in Hsp.
      destruct (subscribe_signed s p c ch k Hp Hc Hk Hsp) as (es1 & f & -> & Hw & Hf).
      destruct (IH (emits es1 s) Hc Hk Hvalid' Hsign') as (es2 & -> & Hall).
      exists (es1 ++ es2). rewrite emits_emits. split; [reflexivity|].
      rewrite wire_app, Hw. simpl. constructor; [|exact Hall].
      exists ch. split; assumption.
Qed.

End Established.

(** ** What a loop iteration never changes *)

Section Invariants.
Context `{Ext : Externals}.

Ltac open_cases :=
  unfold runLoop_case, case_connectTimer, case_subscribe, case_unsubscribe,
    case_onMessage, case_disconnect, case_onClose, subscribe, unsubscribe,
    triggerEventCallback, store_Subscribed.

Lemma step_stable (P : Client -> Prop) (i : Input) (s : Client) :
  stable P (runLoop_case i) -> P s -> P (state_of (step i s)).
Proof.
  intros Hst HP. specialize (Hst s HP). unfold step.
  destruct (runLoop_case i s) as [[] s'|w s']; exact Hst.
Qed.

(** No statement of the loop clears the [Connected] flag. *)
Lemma Connected_stable (i : Input) :
  stable (fun s => Connected s = true) (runLoop_case i).
Proof.
  destruct i; open_cases; unfold send; stable_tac; simpl; auto.
Qed.

Lemma handle_stable (i : Input) (x : option nat) :
  keeps_handle i = true ->
  stable (fun s => connection_ s = x) (runLoop_case i).
Proof.
  destruct i as [[]| | | | |]; try discriminate; intros _;
    open_cases; unfold send; stable_tac; simpl; auto.
Qed.



End Invariants.

(** ** Wire traffic and the connection state *)

Section Wire.
Context `{Ext : Externals}.

Lemma Subscribe_allocates (channel : string) (s : Client) :
  (Subscribe channel s).2 = s \/
  (Subscribe channel s).2 = set_chans (chans s ++ [mkChannel channel false None]) s.
Proof. unfold Subscribe. destruct (lookup_channel _ _ _); simpl; auto. Qed.



Lemma perform_handle_agrees (st : ConnectionState) (a : Action) (s s' : Client) :
  handle_agrees st s ->
  perform a s = Running s' ->
  handle_agrees (transition st a) s'.
Proof.
  intros Hinv Hrun Hst.
  assert (forall i, keeps_handle i = true -> has_transport st = false ->
                    forall s0, connection_ s0 = None ->
                    step i s0 = Running s' -> connection_ s' = None) as Hkeep.
  { intros i Hi _ s0 Hs0 Hstep.
    pose proof (step_stable _ i s0 (handle_stable i None Hi) Hs0) as H.
    now rewrite Hstep in H. }
  destruct a; simpl in Hrun.
  - destruct (Subscribe channel s) as [p s1] eqn:E.
    assert (st = transition st (ASubscribe channel)) as Heq by now destruct st.
    rewrite <- Heq in Hst.
    eapply (Hkeep (SubscribeReq p)); [reflexivity | assumption | | exact Hrun].
    destruct (Subscribe_allocates channel s) as [H|H];
      rewrite E in H; simpl in H; subst s1; simpl; auto.
  - assert (st = transition st (AUnsubscribe channel)) as Heq by now destruct st.
    rewrite <- Heq in Hst.
    eapply (Hkeep (UnsubscribeReq channel)); eauto.
  - unfold step, runLoop_case, case_disconnect, bind, get in Hrun.
    rewrite forEach_store_unsubscribed in Hrun.
    unfold the_connection in Hrun. simpl in Hrun.
    destruct (connection_ s) as [c|]; [|discriminate].
    destruct (conns s !! c); discriminate.
  - assert (st = transition st ABindGlobal) as Heq by now destruct st.
    rewrite <- Heq in Hst. injection Hrun as <-. simpl. auto.
  - destruct d.
    + destruct st; discriminate.
    + assert (has_transport st = false) as Hst0 by now destruct st.
      destruct (connectTimer s).
      * eapply (Hkeep (TimerFired DialErr)); eauto.
      * injection Hrun as <-. auto.
  - assert (has_transport st = false) as Hst0.
    { destruct st; simpl in Hst; try reflexivity;
        destruct (String.eqb _ _); discriminate. }
    eapply (Hkeep (OnMessage message)); eauto.
  - unfold step, runLoop_case, case_onClose, bind, get in Hrun.
    rewrite forEach_store_unsubscribed in Hrun.
    injection Hrun as <-. reflexivity.
Qed.


End Wire.

(** ** Subscribing after the transport was lost *)

Section StaleFlag.
Context `{Ext : Externals}.

Lemma step_onClose (s : Client) :
  step OnClose s =
    Running (set_connectTimer (Some 1)
               (set_connection None
                  (set_chans (mark_unsubscribed (chans s) (Channels s)) s))).
Proof.
  unfold step, runLoop_case, case_onClose, bind, get.
  rewrite forEach_store_unsubscribed. reflexivity.
Qed.

Lemma lookup_channel_valid (heap : list Channel) (registry : list nat)
    (channel : string) (p : nat) :
  lookup_channel heap registry channel = Some p ->
  exists ch, heap !! p = Some ch /\ Name ch = channel.
Proof.
  induction registry as [|q registry IH]; simpl; [discriminate|].
  destruct (heap !! q) as [ch|] eqn:Hq; [|exact IH].
  destruct (String.eqb_spec (Name ch) channel) as [Hn|_]; [|exact IH].
  intros [= <-]. eauto.
Qed.

(** The pointer [Subscribe] hands to the loop points at a channel of that
    name. *)
Lemma Subscribe_valid (channel : string) (s : Client) :
  exists ch, chans (Subscribe channel s).2 !! (Subscribe channel s).1 = Some ch /\
             Name ch = channel.
Proof.
  unfold Subscribe.
  destruct (lookup_channel (chans s) (Channels s) channel) as [p|] eqn:E; simpl.
  - eapply lookup_channel_valid, E.
  - exists (mkChannel channel false None). split; [|reflexivity].
    rewrite lookup_app_r by lia. now rewrite Nat.sub_diag.
Qed.

Lemma perform_keeps_Connected (a : Action) (s : Client) :
  Connected s = true -> Connected (state_of (perform a s)) = true.
Proof.
  intros H. destruct a; simpl;
    try (apply (step_stable _ _ _ (Connected_stable _)); assumption).
  - destruct (Subscribe channel s) as [p s1] eqn:E.
    apply (step_stable _ _ _ (Connected_stable _)).
    destruct (Subscribe_allocates channel s) as [H1|H1];
      rewrite E in H1; simpl in H1; subst s1; auto.
  - exact H.
  - destruct (connectTimer s); [|exact H].
    apply (step_stable _ _ _ (Connected_stable _)); assumption.
Qed.

(** Until a dial succeeds the handle stays nil and the flag stays set. *)
Lemma run_without_dial (acts : list Action) (s s' : Client) :
  Connected s = true ->
  connection_ s = None ->
  Forall (fun a => a <> ATimer DialOk) acts ->
  run acts s = Running s' ->
  Connected s' = true /\ connection_ s' = None.
Proof.
  revert s; induction acts as [|a acts IH]; intros s Hf Hc Hno Hrun; simpl in Hrun.
  - injection Hrun as <-. auto.
  - inversion Hno as [|? ? Ha Hno']; subst.
    destruct (perform a s) as [s1| |] eqn:E; try discriminate.
    apply (IH s1); try assumption.
    + pose proof (perform_keeps_Connected a s Hf) as H. now rewrite E in H.
    + assert (handle_agrees (transition Connecting a) s1) as H.
      { eapply perform_handle_agrees; [|exact E]. intros _. exact Hc. }
      apply H. destruct a as [| | | |[]| |]; try reflexivity. now elim Ha.
Qed.

(** C10: the [Connected] flag survives a transport-closed notification.
    After such a close of an established connection, and for as long as
    no dial has succeeded, the handle is nil while the flag is still set,
    so a subscribe request is not deferred: the loop attempts the wire
    subscribe at once and faults on the nil handle, before the channel is
    registered and without sending anything. *)
Theorem subscribe_after_close_faults
    (s : Client) (acts : list Action) (s' : Client) (channel : string) :
  Connected s = true ->
  run (AClose :: acts) s = Running s' ->
  Forall (fun a => a <> ATimer DialOk) acts ->
  Connected s' = true /\
  connection_ s' = None /\
  exists s'' : Client,
    perform (ASubscribe channel) s' = Panicked nil_dereference s'' /\
    Channels s'' = Channels s' /\
    trace s'' = trace s'.
Proof.
  intros Hf Hrun Hno. simpl in Hrun. rewrite step_onClose in Hrun.
  destruct (run_without_dial acts
              (set_connectTimer (Some 1)
                 (set_connection None
                    (set_chans (mark_unsubscribed (chans s) (Channels s)) s)))
              s' Hf eq_refl Hno Hrun) as [Hf' Hc'].
  split; [exact Hf'|]. split; [exact Hc'|].
  exists (Subscribe channel s').2.
  destruct (Subscribe_valid channel s') as (ch & Hp & _).
  assert (connection_ (Subscribe channel s').2 = None /\
          Connected (Subscribe channel s').2 = true /\
          Channels (Subscribe channel s').2 = Channels s' /\
          trace (Subscribe channel s').2 = trace s') as (Hc1 & Hf1 & HC & HT).
  { destruct (Subscribe_allocates channel s') as [-> | ->]; simpl; auto. }
  split; [|auto].
  simpl. destruct (Subscribe channel s') as [p s1]. simpl in *.
  unfold step, runLoop_case, case_subscribe, bind, get. rewrite Hf1.
  rewrite (subscribe_nil s1 p ch Hp Hc1). reflexivity.
Qed.

End StaleFlag.

(** ** Inbound frames that do not decode *)

Section Frames.
Context `{Ext : Externals}.

Lemma forEach_emit {A} (l : list A) (f : A -> Effect) (s : Client) :
  forEach l (fun x => modify (emit (f x))) s = Val tt (emits (map f l) s).
Proof.
  revert s; induction l as [|x l IH]; intros s.
  - simpl. now rewrite emits_nil.
  - rewrite forEach_cons. unfold modify at 1. rewrite IH.
    unfold emit. now rewrite emits_emits.
Qed.

Lemma triggerEventCallback_dispatches (s : Client) (channel event : string)
    (data : Data) :
  triggerEventCallback channel event data s =
    Val tt (emits (dispatched s channel event data) s).
Proof.
  unfold triggerEventCallback, dispatched, binding_delivery, bind, get.
  destruct (bindings s !! channel) as [evBind|]; [destruct (evBind !! event)|].
  - unfold modify at 1. rewrite forEach_emit. unfold emit.
    now rewrite emits_emits.
  - unfold ret. now rewrite forEach_emit.
  - unfold ret. now rewrite forEach_emit.
Qed.

Lemma wire_dispatched (s : Client) (channel event : string) (data : Data) :
  wire (dispatched s channel event data) = [].
Proof.
  unfold dispatched, binding_delivery. rewrite wire_app.
  assert (forall l, wire (map (fun h => EvHandler h channel event data) l) = []) as ->.
  { induction l; [reflexivity | assumption]. }
  destruct (bindings s !! channel) as [evBind|]; [destruct (evBind !! event)|];
    reflexivity.
Qed.

(** Once connection-established has set the flag and stored the socketID,
    the loop over the registry leaves both alone, however it ends. *)
Lemma established_loop_keeps (l : list nat) (X : list connection) :
  stable (fun s => Connected s = true /\ conns s = X)
    (forEach l (fun p =>
       let* ch := deref p in
       if negb (Subscribed ch) then subscribe p else ret tt)).
Proof.
  unfold subscribe, send. stable_tac; simpl; auto.
Qed.

(** C9 (amended): the error of a failed decode is discarded.  A frame
    that fails to decode is processed exactly as any frame that leaves the
    same event.  When that is the zero event, no connection or channel
    state changes and nothing is put on the wire, but the empty event is
    dispatched: the listener bound to the empty channel and event names,
    if any, and every global listener receive it.  When the event kept the
    name of connection-established, the frame acts as that event: the
    socketID it carries is stored and the client is set connected. *)
Theorem undecodable_frame_is_processed (s : Client) (message e : string) :
  snd (decode message) = Some e ->
  (forall message' : string,
     fst (decode message') = fst (decode message) ->
     step (OnMessage message) s = step (OnMessage message') s) /\
  (fst (decode message) = zeroEvent ->
     step (OnMessage message) s =
       Running (emits (dispatched s "" "" (DString "")) s) /\
     wire (dispatched s "" "" (DString "")) = [] /\
     (globalBindings s <> [] -> deliveries (dispatched s "" "" (DString "")) <> [])) /\
  (Event_Name (fst (decode message)) = "pusher:connection_established" ->
     forall (c : nat) (k : connection),
       connection_ s = Some c ->
       conns s !! c = Some k ->
       Connected (state_of (step (OnMessage message) s)) = true /\
       conns (state_of (step (OnMessage message) s)) =
         <[ c := mkConnection (carried_socketID message) ]> (conns s)).
Proof.
  intros _. split; [|split].
  - intros message' Heq. unfold step, runLoop_case, case_onMessage.
    now rewrite Heq.
  - intros Hzero. split; [|split].
    + unfold step, runLoop_case, case_onMessage. rewrite Hzero. simpl.
      unfold bind, get. rewrite triggerEventCallback_dispatches. reflexivity.
    + apply wire_dispatched.
    + unfold dispatched, deliveries. rewrite omap_app.
      destruct (globalBindings s) as [|h l]; [congruence|].
      intros _ H. apply app_eq_nil in H as [_ H]. discriminate H.
  - intros Hname c k Hc Hk.
    set (s1 := set_Connected true
                 (set_conns (<[ c := mkConnection (carried_socketID message) ]> (conns s)) s)).
    pose proof (established_loop_keeps (Channels s) (conns s1) s1
                  (conj eq_refl eq_refl)) as Hkeep.
    unfold step, runLoop_case, case_onMessage.
    rewrite Hname, String.eqb_refl.
    unfold bind, get, modify, ret, the_connection.
    rewrite Hc, Hk. simpl fst. fold (carried_socketID message). fold s1.
    destruct (forEach (Channels s) _ s1) as [[] s2|w s2]; exact Hkeep.
Qed.

End Frames.

(** ** The registry *)

Section Registry.
Context `{Ext : Externals}.

Lemma lookup_channel_app (heap : list Channel) (l1 l2 : list nat) (channel : string) :
  lookup_channel heap (l1 ++ l2) channel =
  match lookup_channel heap l1 channel with
  | Some p => Some p
  | None => lookup_channel heap l2 channel
  end.
Proof.
  induction l1 as [|q l1 IH]; simpl; [reflexivity|].
  destruct (heap !! q) as [ch|]; [|exact IH].
  destruct (String.eqb (Name ch) channel); [reflexivity | exact IH].
Qed.

Lemma lookup_channel_grow (heap more : list Channel) (l : list nat) (channel : string) :
  Forall (fun p => p < length heap) l ->
  lookup_channel (heap ++ more) l channel = lookup_channel heap l channel.
Proof.
  induction 1 as [|q l Hq _ IH]; simpl; [reflexivity|].
  rewrite lookup_app_l by exact Hq. now rewrite IH.
Qed.

(** A subscribe request changes no channel and appends its pointer. *)
Lemma step_subscribe_registry (c : nat) (s s1 : Client) :
  step (SubscribeReq c) s = Running s1 ->
  chans s1 = chans s /\ Channels s1 = Channels s ++ [c].
Proof.
  unfold step, runLoop_case, case_subscribe, bind, get.
  assert (stable (fun x => chans x = chans s /\ Channels x = Channels s)
            (if Connected s then subscribe c else ret tt)) as Hst.
  { unfold subscribe, send. stable_tac; simpl; auto. }
  specialize (Hst s (conj eq_refl eq_refl)).
  destruct ((if Connected s then subscribe c else ret tt) s) as [[] s'|w s'];
    [|discriminate].
  unfold modify, ret. intros [= <-]. simpl.
  destruct Hst as [-> ->]. auto.
Qed.

(** The part of the claim the code keeps: once a subscribe request has
    been processed, a further [Subscribe] of that name finds the channel
    and returns the same pointer without allocating. *)
Lemma Subscribe_same_handle (channel : string) (s s1 : Client) :
  Forall (fun p => p < length (chans s)) (Channels s) ->
  perform (ASubscribe channel) s = Running s1 ->
  Subscribe channel s1 = ((Subscribe channel s).1, s1).
Proof.
  intros Hvalid. simpl. unfold Subscribe at 1 3.
  destruct (lookup_channel (chans s) (Channels s) channel) as [p|] eqn:E; simpl;
    intros Hstep; apply step_subscribe_registry in Hstep as [Hh Hr]; simpl in Hh, Hr;
    unfold Subscribe; rewrite Hh, Hr, lookup_channel_app.
  - now rewrite E.
  - rewrite lookup_channel_grow, E by exact Hvalid. simpl.
    rewrite lookup_app_r by lia. rewrite Nat.sub_diag. simpl.
    now rewrite String.eqb_refl.
Qed.

Lemma registry_valid_stable (i : Input) :
  stable (fun s => registry_valid s /\
                   match i with SubscribeReq c => c < length (chans s) | _ => True end)
         (runLoop_case i).
Proof.
  unfold registry_valid.
  destruct i; unfold runLoop_case, case_connectTimer, case_subscribe,
    case_unsubscribe, case_onMessage, case_disconnect, case_onClose, subscribe,
    unsubscribe, triggerEventCallback, store_Subscribed, send;
    stable_tac; simpl in *;
    rewrite ?length_alter, ?length_insert; try tauto.
  split; [|tauto]. apply Forall_app. split; [tauto|].
  constructor; [tauto | constructor].
Qed.

Lemma perform_registry_valid (a : Action) (s : Client) :
  registry_valid s -> registry_valid (state_of (perform a s)).
Proof.
  intros H.
  assert (forall i s0, registry_valid s0 ->
            match i with SubscribeReq c => c < length (chans s0) | _ => True end ->
            registry_valid (state_of (step i s0))) as Hstep.
  { intros i s0 H0 H1.
    apply (step_stable _ i s0 (registry_valid_stable i) (conj H0 H1)). }
  destruct a; simpl; try (apply Hstep; [exact H | exact I]).
  - destruct (Subscribe channel s) as [p s1] eqn:E. unfold Subscribe in E.
    destruct (lookup_channel (chans s) (Channels s) channel) as [q|] eqn:El;
      injection E as <- <-; apply Hstep.
    + exact H.
    + apply lookup_channel_valid in El as (ch & Hq & _).
      eapply lookup_lt_Some, Hq.
    + unfold registry_valid in *. simpl. rewrite length_app.
      eapply Forall_impl; [exact H|]. simpl. intros; lia.
    + simpl. rewrite length_app. simpl. lia.
  - exact H.
  - destruct (connectTimer s); [apply Hstep; [exact H | exact I] | exact H].
Qed.

(** In every execution the registry stays valid. *)
Lemma run_registry_valid (acts : list Action) (s : Client) :
  registry_valid s -> registry_valid (state_of (run acts s)).
Proof.
  revert s; induction acts as [|a acts IH]; intros s H; simpl; [exact H|].
  pose proof (perform_registry_valid a s H) as H1.
  destruct (perform a s) as [s1| |]; [apply IH; exact H1 | exact H1 | exact H1].
Qed.

(** So every state an execution of a new client reaches satisfies the
    side condition on the registry used for connection-established. *)
Lemma reachable_registry_points_at_channels
    (c : ClientConfig) (userData : Member) (acts : list Action) :
  Forall (fun p => is_Some (chans (state_of (run acts (NewWithConfig c userData))) !! p))
         (Channels (state_of (run acts (NewWithConfig c userData)))).
Proof.
  eapply Forall_impl.
  - apply (run_registry_valid acts (NewWithConfig c userData)). constructor.
  - intros p Hp. simpl in Hp. apply lookup_lt_is_Some, Hp.
Qed.

(** C3: [Subscribe(n)] twice on a fresh client.  Both calls return the
    same channel, but the loop appends the pointer it receives on every
    request, so the registry ends with two entries for [n]. *)
Theorem Subscribe_twice_registers_twice
    (c : ClientConfig) (userData : Member) (channel : string) :
  exists s1 s2 : Client,
    perform (ASubscribe channel) (NewWithConfig c userData) = Running s1 /\
    perform (ASubscribe channel) s1 = Running s2 /\
    (Subscribe channel (NewWithConfig c userData)).1 = 0 /\
    (Subscribe channel s1).1 = 0 /\
    Channels s1 = [0] /\
    Channels s2 = [0; 0] /\
    chans s2 = [mkChannel channel false None].
Proof.
  eexists _, _. split; [reflexivity|].
  unfold perform, Subscribe. simpl. rewrite String.eqb_refl.
  split; [reflexivity|]. repeat split.
Qed.

End Registry.

(** ** Callers and the loop side by side *)

Section Rendezvous.
Context `{Ext : Externals}.

(** Accepting and finishing in one go is [perform]. *)
Lemma accept_finish (a : Action) (s : Client) (i : Input) (s1 : Client) :
  receive a s = Some (i, s1) ->
  sys_run [Accept a; Finish] (mkSys AtSelect s) = Some (after (perform a s)).
Proof.
  intros H. simpl. rewrite H. simpl.
  destruct a; simpl in H |- *; try (injection H as <- <-; reflexivity).
  - destruct (Subscribe channel s). injection H as <- <-. reflexivity.
  - discriminate.
  - destruct (connectTimer s); [|discriminate]. injection H as <- <-. reflexivity.
Qed.

Lemma step_disconnect (s : Client) :
  step DisconnectReq s =
    let s1 := set_chans (mark_unsubscribed (chans s) (Channels s)) s in
    match connection_ s with
    | Some c =>
        match conns s !! c with
        | Some _ =>
            Exited (emit EvAck (set_connectTimer None (set_connection None
                      (emit (EvWsClose c) s1))))
        | None => Panicked nil_dereference s1
        end
    | None => Panicked nil_dereference s1
    end.
Proof.
  unfold step, runLoop_case, case_disconnect, bind, get.
  rewrite forEach_store_unsubscribed. unfold the_connection. simpl.
  destruct (connection_ s) as [c|]; [|reflexivity].
  destruct (conns s !! c); reflexivity.
Qed.

Lemma sys_run_app (ls1 ls2 : list Label) (x : Sys) :
  sys_run (ls1 ++ ls2) x =
  match sys_run ls1 x with
  | Some x1 => sys_run ls2 x1
  | None => None
  end.
Proof.
  revert x; induction ls1 as [|l ls1 IH]; intros x; simpl; [reflexivity|].
  destruct (sys_step l x); [apply IH | reflexivity].
Qed.

(** Once the loop has left its [select] for good no label can fire. *)
Lemma stopped_is_final (ls : list Label) (x y : Sys) :
  pc x = LoopReturned \/ (exists w, pc x = LoopPanicked w) ->
  sys_run ls x = Some y -> ls = [] /\ y = x.
Proof.
  intros Hpc. destruct ls as [|l ls]; simpl.
  - intros [= <-]. auto.
  - assert (sys_step l x = None) as ->; [|discriminate].
    unfold sys_step. destruct Hpc as [-> | [w ->]]; now destruct l.
Qed.

(** C2 (amended): [Disconnect()] is released as soon as the loop accepts
    the request, with the client exactly as it was, before any teardown
    has run.  From that point on the loop never accepts another request:
    all it can still do is finish the disconnect case.  When it has done
    so and returned, every channel of the registry reports unsubscribed,
    the handle is nil and the reconnect timer is stopped. *)
Theorem Disconnect_returns_on_acceptance
    (x0 x : Sys) (before afterwards : list Label) :
  sys_run (before ++ Accept ADisconnect :: afterwards) x0 = Some x ->
  exists s : Client,
    sys_run before x0 = Some (mkSys AtSelect s) /\
    sys_run (before ++ [Accept ADisconnect]) x0 = Some (mkSys (InCase DisconnectReq) s) /\
    (afterwards = [] \/ afterwards = [Finish]) /\
    (afterwards = [Finish] -> x = after (step DisconnectReq s)) /\
    (pc x = LoopReturned ->
       Forall (fun p => reports_subscribed (client x) p = false) (Channels (client x)) /\
       connection_ (client x) = None /\
       connectTimer (client x) = None).
Proof.
  rewrite sys_run_app. destruct (sys_run before x0) as [[pc1 s]|] eqn:E1; [|discriminate].
  destruct pc1; simpl; try discriminate. intros Hrest.
  exists s. split; [reflexivity|].
  split; [rewrite sys_run_app, E1; reflexivity|].
  destruct afterwards as [|l rest].
  - simpl in Hrest. injection Hrest as <-.
    split; [auto|]. split; discriminate.
  - simpl in Hrest. destruct l; [discriminate|]. simpl in Hrest.
    assert (rest = [] /\ x = after (step DisconnectReq s)) as [-> ->].
    { eapply stopped_is_final; [|exact Hrest].
      rewrite step_disconnect. simpl.
      destruct (connection_ s) as [c|]; [destruct (conns s !! c)|]; simpl; eauto. }
    split; [auto|]. split; [reflexivity|].
    rewrite step_disconnect. simpl.
    destruct (connection_ s) as [c|]; [destruct (conns s !! c)|]; simpl;
      try discriminate.
    intros _. split; [apply mark_unsubscribed_all | auto].
Qed.

End Rendezvous.

(** ** Unsubscribe requests *)

Section UnsubscribeFacts.
Context `{Ext : Externals}.

Lemma set_chans_emits_twice (h1 h2 : list Channel) (es1 es2 : list Effect) (s : Client) :
  set_chans h2 (emits es2 (set_chans h1 (emits es1 s))) =
  set_chans h2 (emits (es1 ++ es2) s).
Proof. unfold set_chans, emits; simpl. now rewrite app_assoc. Qed.

Lemma set_chans_same (s : Client) : set_chans (chans s) (emits [] s) = s.
Proof. destruct s; unfold set_chans, emits; simpl. now rewrite app_nil_r. Qed.

Lemma lookup_Name_alter (f : Channel -> Channel) (h : list Channel) (q p : nat) :
  (forall ch, Name (f ch) = Name ch) ->
  Name <$> (alter f q h !! p) = Name <$> (h !! p).
Proof.
  intros Hf. destruct (decide (q = p)) as [->|Hne].
  - rewrite list_lookup_alter_eq. destruct (h !! p); simpl; [now rewrite Hf | reflexivity].
  - now rewrite list_lookup_alter_ne.
Qed.

Lemma named_in_alter (f : Channel -> Channel) (h : list Channel) (q : nat)
    (c : string) (l : list nat) :
  (forall ch, Name (f ch) = Name ch) ->
  named_in (alter f q h) c l = named_in h c l.
Proof.
  intros Hf. unfold named_in. apply List.filter_ext. intros p.
  pose proof (lookup_Name_alter f h q p Hf) as H.
  destruct (alter f q h !! p), (h !! p); simpl in H; try discriminate; [|reflexivity].
  now injection H as ->.
Qed.

Lemma names_alter (f : Channel -> Channel) (h : list Channel) (q : nat) :
  (forall ch, Name (f ch) = Name ch) ->
  Name <$> alter f q h = Name <$> h.
Proof.
  intros Hf. apply list_eq. intros i. rewrite !list_lookup_fmap.
  now apply lookup_Name_alter.
Qed.

Lemma names_mark_unsubscribed (l : list nat) (h : list Channel) :
  Name <$> mark_unsubscribed h l = Name <$> h.
Proof.
  revert h; induction l as [|q l IH]; intros h; simpl; [reflexivity|].
  rewrite IH. now apply names_alter.
Qed.

Lemma Forall_named_in (P : nat -> Prop) (h : list Channel) (c : string)
    (l : list nat) :
  Forall P l -> Forall P (named_in h c l).
Proof.
  induction 1 as [|p l Hp _ IH]; [constructor|]. unfold named_in. simpl.
  destruct (match h !! p with Some ch => String.eqb (Name ch) c | None => false end);
    [constructor; assumption | assumption].
Qed.

(** One iteration of the unsubscribe loop. *)
Lemma unsubscribe_iteration (p : nat) (s : Client) (c : string) (ch : Channel) :
  chans s !! p = Some ch ->
  (let* ch := deref p in
   if String.eqb (Name ch) c then
     let* s := get in
     match connection_ s with
     | Some _ => unsubscribe p
     | None => ret tt
     end
   else ret tt) s =
  if String.eqb (Name ch) c then
    match connection_ s with
    | Some k =>
        match conns s !! k with
        | Some _ =>
            Val tt (set_chans (alter (with_Subscribed false) p (chans s))
                      (emits [EvSend k (encode "pusher:unsubscribe"
                                          {[ "channel" := c ]} None)] s))
        | None => Panic nil_dereference s
        end
    | None => Val tt s
    end
  else Val tt s.
Proof.
  intros Hch. unfold bind at 1. unfold deref at 1. rewrite Hch.
  destruct (String.eqb_spec (Name ch) c) as [Hn|Hn]; [|reflexivity].
  unfold bind, get. destruct (connection_ s) as [k|] eqn:Hc; [|reflexivity].
  unfold unsubscribe, store_Subscribed.
  repeat (run_monad; rewrite ?Hch, ?Hc).
  destruct (conns s !! k); [|reflexivity]. simpl. now rewrite Hn.
Qed.

(** The loop of the unsubscribe case while a connection is held. *)
Lemma unsubscribe_loop (l : list nat) (s : Client) (c : string) (k : nat)
    (kc : connection) :
  connection_ s = Some k ->
  conns s !! k = Some kc ->
  Forall (fun p => p < length (chans s)) l ->
  forEach l (fun p =>
    let* ch := deref p in
    if String.eqb (Name ch) c then
      let* s := get in
      match connection_ s with
      | Some _ => unsubscribe p
      | None => ret tt
      end
    else ret tt) s =
  Val tt (set_chans (mark_unsubscribed (chans s) (named_in (chans s) c l))
            (emits (map (fun _ => EvSend k (encode "pusher:unsubscribe"
                                              {[ "channel" := c ]} None))
                        (named_in (chans s) c l)) s)).
Proof.
  revert s; induction l as [|p l IH]; intros s Hc Hk Hvalid.
  - simpl. unfold ret. now rewrite set_chans_same.
  - inversion Hvalid as [|? ? Hp Hvalid']; subst.
    destruct (lookup_lt_is_Some_2 _ _ Hp) as [ch Hch].
    rewrite forEach_cons. cbv beta.
    rewrite (unsubscribe_iteration p s c ch Hch), Hc, Hk.
    unfold named_in. simpl List.filter. rewrite Hch.
    fold (named_in (chans s) c l).
    destruct (String.eqb (Name ch) c).
    + rewrite IH; simpl; rewrite ?length_alter; try assumption.
      rewrite named_in_alter by reflexivity.
      now rewrite set_chans_emits_twice.
    + apply IH; assumption.
Qed.

(** The same loop when there is nothing to do: no connection is held, or
    no entry carries the name. *)
Lemma unsubscribe_loop_idle (l : list nat) (s : Client) (c : string) :
  connection_ s = None \/ named_in (chans s) c l = [] ->
  Forall (fun p => p < length (chans s)) l ->
  forEach l (fun p =>
    let* ch := deref p in
    if String.eqb (Name ch) c then
      let* s := get in
      match connection_ s with
      | Some _ => unsubscribe p
      | None => ret tt
      end
    else ret tt) s = Val tt s.
Proof.
  intros Hidle Hvalid. induction Hvalid as [|p l Hp _ IH]; [reflexivity|].
  destruct (lookup_lt_is_Some_2 _ _ Hp) as [ch Hch].
  rewrite forEach_cons. cbv beta. rewrite (unsubscribe_iteration p s c ch Hch).
  unfold named_in in Hidle. simpl in Hidle. rewrite Hch in Hidle.
  destruct (String.eqb (Name ch) c).
  - destruct Hidle as [Hc|Hnil]; [|discriminate]. rewrite Hc. apply IH. auto.
  - apply IH. exact Hidle.
Qed.

(** X1: an unsubscribe request processed while no connection is held, or
    for a name no registry entry carries, changes nothing at all: no frame,
    no flag, no error. *)
Theorem Unsubscribe_idle_changes_nothing (s : Client) (c : string) :
  registry_valid s ->
  connection_ s = None \/ named s c = [] ->
  step (UnsubscribeReq c) s = Running s.
Proof.
  intros Hvalid Hidle.
  unfold step, runLoop_case, case_unsubscribe, bind at 1, get at 1, bind at 1.
  rewrite (unsubscribe_loop_idle (Channels s) s c Hidle Hvalid). reflexivity.
Qed.

(** X2: an unsubscribe request processed while a connection is held sends
    one [pusher:unsubscribe] frame for each registry entry carrying the
    name, on the current connection, and leaves those channels reporting
    unsubscribed; every other allocated channel, the registry itself and
    the connection are as before. *)
Theorem Unsubscribe_sends_and_marks
    (s : Client) (c : string) (k : nat) (kc : connection) :
  registry_valid s ->
  connection_ s = Some k ->
  conns s !! k = Some kc ->
  exists s' : Client,
    step (UnsubscribeReq c) s = Running s' /\
    wire (trace s') = wire (trace s) ++
      map (fun _ => (k, mkFrame "pusher:unsubscribe" {[ "channel" := c ]} None))
          (named s c) /\
    Forall (fun p => reports_subscribed s' p = false) (named s c) /\
    (forall p, p ∉ named s c -> chans s' !! p = chans s !! p) /\
    Channels s' = Channels s /\
    connection_ s' = Some k /\
    names s' = names s.
Proof.
  intros Hvalid Hc Hk. eexists. split.
  - unfold step, runLoop_case, case_unsubscribe, bind at 1, get at 1, bind at 1.
    rewrite (unsubscribe_loop (Channels s) s c k kc Hc Hk Hvalid). reflexivity.
  - fold (named s c). simpl. split; [|split; [|split; [|split; [|split]]]].
    + rewrite wire_app. f_equal. induction (named s c); simpl; [reflexivity|].
      now f_equal.
    + apply mark_unsubscribed_all.
    + intros p Hp. revert Hp. generalize (chans s). 
      induction (named s c) as [|q l IH]; intros h Hp; simpl; [reflexivity|].
      rewrite IH by (intros H; apply Hp; now right).
      apply list_lookup_alter_ne. intros ->. apply Hp. now left.
    + reflexivity.
    + exact Hc.
    + unfold names. simpl. apply names_mark_unsubscribed.
Qed.

End UnsubscribeFacts.

(** ** Inbound events *)

Section MessageFacts.
Context `{Ext : Externals}.

Lemma set_chans_emits_commute (h : list Channel) (es : list Effect) (s : Client) :
  emits es (set_chans h s) = set_chans h (emits es s).
Proof. reflexivity. Qed.

Lemma insert_as_alter (f : Channel -> Channel) (h : list Channel) (p : nat)
    (ch : Channel) :
  h !! p = Some ch -> <[ p := f ch ]> h = alter f p h.
Proof.
  intros Hp. apply list_eq. intros i. destruct (decide (p = i)) as [<-|Hne].
  - rewrite list_lookup_alter_eq, Hp. apply list_lookup_insert_eq.
    eapply lookup_lt_Some, Hp.
  - now rewrite list_lookup_insert_ne, list_lookup_alter_ne.
Qed.

Lemma names_mark_subscribed (conn : option nat) (l : list nat) (h : list Channel) :
  Name <$> mark_subscribed conn h l = Name <$> h.
Proof.
  revert h; induction l as [|q l IH]; intros h; simpl; [reflexivity|].
  rewrite IH. now apply names_alter.
Qed.

Lemma mark_subscribed_other (conn : option nat) (l : list nat) (h : list Channel)
    (p : nat) :
  p ∉ l -> mark_subscribed conn h l !! p = h !! p.
Proof.
  revert h; induction l as [|q l IH]; intros h Hp; simpl; [reflexivity|].
  rewrite IH by (intros H; apply Hp; now right).
  apply list_lookup_alter_ne. intros ->. apply Hp. now left.
Qed.

Lemma mark_subscribed_keep (conn : option nat) (l : list nat) (h : list Channel)
    (p : nat) (ch : Channel) :
  h !! p = Some ch -> Subscribed ch = true -> ch_connection ch = conn ->
  exists ch', mark_subscribed conn h l !! p = Some ch' /\
              Subscribed ch' = true /\ ch_connection ch' = conn.
Proof.
  revert h ch; induction l as [|q l IH]; intros h ch Hp Hs Hc; simpl; [eauto|].
  destruct (decide (q = p)) as [->|Hne].
  - apply (IH _ (with_subscription conn ch)); [|reflexivity..].
    now rewrite list_lookup_alter_eq, Hp.
  - apply (IH _ ch); [|assumption..]. now rewrite list_lookup_alter_ne.
Qed.

Lemma mark_subscribed_all (conn : option nat) (l : list nat) (h : list Channel) :
  Forall (fun p => p < length h) l ->
  Forall (fun p => exists ch', mark_subscribed conn h l !! p = Some ch' /\
                               Subscribed ch' = true /\ ch_connection ch' = conn) l.
Proof.
  revert h; induction l as [|q l IH]; intros h Hvalid; [constructor|].
  inversion Hvalid as [|? ? Hq Hvalid']; subst. constructor.
  - destruct (lookup_lt_is_Some_2 _ _ Hq) as [ch Hch]. simpl.
    apply (mark_subscribed_keep conn l _ q (with_subscription conn ch));
      [|reflexivity..].
    now rewrite list_lookup_alter_eq, Hch.
  - simpl. apply IH. eapply Forall_impl; [exact Hvalid'|].
    intros p Hp. simpl. now rewrite length_alter.
Qed.

Lemma succeeded_iteration (p : nat) (s : Client) (channel data : string)
    (ch : Channel) :
  chans s !! p = Some ch ->
  (let* ch := deref p in
   if String.eqb (Name ch) channel then
     modify (fun s => set_chans
       (<[ p := mkChannel (Name ch) true (connection_ s) ]> (chans s)) s) ;;
     if isPresence ch then
       let* s := get in
       let members := unmarshalledMembers data (UserId (UserData s)) in
       triggerEventCallback channel "pusher:subscription_succeeded" (DMembers members)
     else ret tt
   else ret tt) s =
  if String.eqb (Name ch) channel then
    Val tt (set_chans (alter (with_subscription (connection_ s)) p (chans s))
              (emits (roster_delivery s channel data) s))
  else Val tt s.
Proof.
  intros Hch. unfold bind at 1. unfold deref at 1. rewrite Hch.
  destruct (String.eqb_spec (Name ch) channel) as [Hn|Hn]; [|reflexivity].
  unfold bind at 1. unfold modify at 1. cbv beta.
  change (mkChannel (Name ch) true (connection_ s))
    with (with_subscription (connection_ s) ch).
  rewrite (insert_as_alter (with_subscription (connection_ s)) _ _ ch Hch).
  unfold roster_delivery, isPresence. rewrite Hn.
  destruct (String.prefix "presence-" channel).
  - unfold bind, get. rewrite triggerEventCallback_dispatches. reflexivity.
  - unfold ret. unfold set_chans, emits; simpl. now rewrite app_nil_r.
Qed.

Lemma succeeded_loop (l : list nat) (s : Client) (channel data : string) :
  Forall (fun p => p < length (chans s)) l ->
  forEach l (fun p =>
    let* ch := deref p in
    if String.eqb (Name ch) channel then
      modify (fun s => set_chans
        (<[ p := mkChannel (Name ch) true (connection_ s) ]> (chans s)) s) ;;
      if isPresence ch then
        let* s := get in
        let members := unmarshalledMembers data (UserId (UserData s)) in
        triggerEventCallback channel "pusher:subscription_succeeded" (DMembers members)
      else ret tt
    else ret tt) s =
  Val tt (set_chans
            (mark_subscribed (connection_ s) (chans s) (named_in (chans s) channel l))
            (emits (flat_map (fun _ => roster_delivery s channel data)
                             (named_in (chans s) channel l)) s)).
Proof.
  revert s; induction l as [|p l IH]; intros s Hvalid.
  - simpl. unfold ret. now rewrite set_chans_same.
  - inversion Hvalid as [|? ? Hp Hvalid']; subst.
    destruct (lookup_lt_is_Some_2 _ _ Hp) as [ch Hch].
    rewrite forEach_cons. cbv beta.
    rewrite (succeeded_iteration p s channel data ch Hch).
    unfold named_in. simpl List.filter. rewrite Hch.
    fold (named_in (chans s) channel l).
    destruct (String.eqb (Name ch) channel).
    + rewrite IH; simpl; rewrite ?length_alter; try assumption.
      rewrite named_in_alter by reflexivity.
      now rewrite set_chans_emits_twice.
    + apply IH; assumption.
Qed.

Lemma step_subscription_succeeded (s : Client) (message : string) :
  Event_Name (fst (decode message)) = "pusher_internal:subscription_succeeded" ->
  registry_valid s ->
  step (OnMessage message) s =
    Running (set_chans
      (mark_subscribed (connection_ s) (chans s)
         (named s (Event_Channel (fst (decode message)))))
      (emits (flat_map (fun _ => roster_delivery s (Event_Channel (fst (decode message)))
                                   (Event_Data (fst (decode message))))
                       (named s (Event_Channel (fst (decode message))))) s)).
Proof.
  intros Hname Hvalid.
  unfold step, runLoop_case, case_onMessage. rewrite Hname. simpl String.eqb.
  cbv iota. unfold bind at 1, get at 1, bind at 1.
  rewrite (succeeded_loop (Channels s) s _ _ Hvalid). reflexivity.
Qed.

(** X3: a subscription-succeeded event marks every registry entry that
    carries the event's channel name as subscribed on the current
    connection, and touches no other channel; nothing is sent.  Listeners
    hear of it only for a presence channel: once per such entry, as
    [pusher:subscription_succeeded] with the decoded roster. *)
Theorem subscription_succeeded_marks_channel (s : Client) (message : string) :
  Event_Name (fst (decode message)) = "pusher_internal:subscription_succeeded" ->
  registry_valid s ->
  exists s' : Client,
    step (OnMessage message) s = Running s' /\
    Forall (fun p => exists ch, chans s' !! p = Some ch /\ Subscribed ch = true /\
                                ch_connection ch = connection_ s)
           (named s (Event_Channel (fst (decode message)))) /\
    (forall p, p ∉ named s (Event_Channel (fst (decode message))) ->
               chans s' !! p = chans s !! p) /\
    names s' = names s /\
    trace s' = trace s ++
      flat_map (fun _ => roster_delivery s (Event_Channel (fst (decode message)))
                           (Event_Data (fst (decode message))))
               (named s (Event_Channel (fst (decode message)))) /\
    wire (trace s') = wire (trace s) /\
    Channels s' = Channels s /\
    connection_ s' = connection_ s /\
    Connected s' = Connected s.
Proof.
  intros Hname Hvalid. eexists. split.
  - apply step_subscription_succeeded; assumption.
  - simpl.
    split; [apply mark_subscribed_all, Forall_named_in, Hvalid|].
    split; [intros p Hp; now apply mark_subscribed_other|].
    split; [apply names_mark_subscribed|].
    split; [reflexivity|].
    split; [|repeat split].
    rewrite wire_app.
    assert (wire (flat_map (fun _ => roster_delivery s (Event_Channel (decode message).1)
                                        (Event_Data (decode message).1))
                    (named s (Event_Channel (decode message).1))) = []) as ->.
    { induction (named s _) as [|q l IH]; [reflexivity|]. simpl.
      rewrite wire_app, IH. unfold roster_delivery.
      destruct (String.prefix _ _); [now rewrite wire_dispatched | reflexivity]. }
    apply app_nil_r.
Qed.

(** X4: a member-added or member-removed event changes no state and sends
    nothing; the decoded member is delivered under the public name
    [pusher:member_added] or [pusher:member_removed], first to the listener
    bound to that channel and name, then to every global listener. *)
Theorem member_event_is_renamed (s : Client) (message : string) (added : bool) :
  Event_Name (fst (decode message)) =
    (if added then "pusher_internal:member_added"
     else "pusher_internal:member_removed") ->
  step (OnMessage message) s =
    Running (emits
      (binding_delivery s (Event_Channel (fst (decode message)))
         (if added then "pusher:member_added" else "pusher:member_removed")
         (DMember (unmarshalledMember (Event_Data (fst (decode message))))) ++
       map (fun handler =>
              EvHandler handler (Event_Channel (fst (decode message)))
                (if added then "pusher:member_added" else "pusher:member_removed")
                (DMember (unmarshalledMember (Event_Data (fst (decode message))))))
           (globalBindings s)) s).
Proof.
  intros Hname. unfold step, runLoop_case, case_onMessage. rewrite Hname.
  destruct added; simpl String.eqb; cbv iota;
    unfold bind, get; rewrite triggerEventCallback_dispatches; reflexivity.
Qed.

(** X5: an event whose name is not one of the four control names is
    forwarded untouched: channel, name and raw data go to the listener
    bound to that channel and name, if any, and then to every global
    listener; with neither, the event is dropped and nothing changes. *)
Theorem application_event_is_forwarded (s : Client) (message : string) :
  control_event (Event_Name (fst (decode message))) = false ->
  step (OnMessage message) s =
    Running (emits
      (binding_delivery s (Event_Channel (fst (decode message)))
         (Event_Name (fst (decode message)))
         (DString (Event_Data (fst (decode message)))) ++
       map (fun handler =>
              EvHandler handler (Event_Channel (fst (decode message)))
                (Event_Name (fst (decode message)))
                (DString (Event_Data (fst (decode message)))))
           (globalBindings s)) s) /\
  (bindings s !! Event_Channel (fst (decode message)) = None ->
   globalBindings s = [] ->
   step (OnMessage message) s = Running s).
Proof.
  intros Hname. unfold control_event in Hname.
  apply orb_false_iff in Hname as [Hname H4].
  apply orb_false_iff in Hname as [Hname H3].
  apply orb_false_iff in Hname as [H1 H2].
  assert (step (OnMessage message) s =
          Running (emits (dispatched s (Event_Channel (fst (decode message)))
                            (Event_Name (fst (decode message)))
                            (DString (Event_Data (fst (decode message))))) s)) as Hstep.
  { unfold step, runLoop_case, case_onMessage. rewrite H1, H2, H3, H4.
    unfold bind, get. rewrite triggerEventCallback_dispatches. reflexivity. }
  split; [exact Hstep|].
  intros Hb Hg. rewrite Hstep. unfold dispatched, binding_delivery.
  rewrite Hb, Hg. simpl. now rewrite emits_nil.
Qed.

End MessageFacts.

(** ** What holds along every execution *)

Section RunFacts.
Context `{Ext : Externals}.

Ltac open_cases :=
  unfold runLoop_case, case_connectTimer, case_subscribe, case_unsubscribe,
    case_onMessage, case_disconnect, case_onClose, subscribe, unsubscribe,
    triggerEventCallback, store_Subscribed.

(** A property kept by every case body, by the caller-side allocation of
    [Subscribe] and by [BindGlobal] is kept by every action. *)
Lemma perform_keeps (P : Client -> Prop) :
  (forall i, stable P (runLoop_case i)) ->
  (forall s ch, P s -> P (set_chans (chans s ++ [ch]) s)) ->
  (forall s h, P s -> P (set_globalBindings (globalBindings s ++ [h]) s)) ->
  forall a s, P s -> P (state_of (perform a s)).
Proof.
  intros Hst Halloc Hbind a s HP. destruct a; simpl;
    try (apply step_stable; [apply Hst | exact HP]).
  - destruct (Subscribe channel s) as [p s1] eqn:E.
    apply step_stable; [apply Hst|].
    destruct (Subscribe_allocates channel s) as [H|H];
      rewrite E in H; simpl in H; subst s1; auto.
  - apply Hbind, HP.
  - destruct (connectTimer s); [apply step_stable; [apply Hst | exact HP] | exact HP].
Qed.

Lemma run_keeps (P : Client -> Prop) :
  (forall a s, P s -> P (state_of (perform a s))) ->
  forall acts s, P s -> P (state_of (run acts s)).
Proof.
  intros Hstep acts. induction acts as [|a acts IH]; intros s HP; simpl; [exact HP|].
  pose proof (Hstep a s HP) as H1.
  destruct (perform a s) as [s1| |]; [apply IH; exact H1 | exact H1 | exact H1].
Qed.

Lemma run_cons (a : Action) (rest : list Action) (s : Client) :
  run (a :: rest) s =
  match perform a s with
  | Running s' => run rest s'
  | o => o
  end.
Proof. reflexivity. Qed.

Lemma perform_dial_failure (s : Client) :
  connectTimer s <> None ->
  perform (ATimer DialErr) s = Running (set_connectTimer (Some 1) (emits [EvDial] s)).
Proof.
  intros Harmed. unfold perform, ready.
  destruct (connectTimer s); [reflexivity | congruence].
Qed.

(** X6: dial failures are retried for ever.  However many dials in a row
    fail, the loop is still running, holds no connection it did not hold
    before, and has the timer armed for another attempt one second later;
    each failure costs one dial and changes nothing else. *)
Theorem dial_failures_retry_forever (n : nat) (s : Client) :
  connectTimer s <> None ->
  run (replicate (S n) (ATimer DialErr)) s =
    Running (set_connectTimer (Some 1) (emits (replicate (S n) EvDial) s)).
Proof.
  revert s; induction n as [|n IH]; intros s Harmed.
  - change (replicate 1 (ATimer DialErr)) with [ATimer DialErr].
    now rewrite run_cons, perform_dial_failure.
  - change (replicate (S (S n)) (ATimer DialErr))
      with (ATimer DialErr :: replicate (S n) (ATimer DialErr)).
    rewrite run_cons, perform_dial_failure by assumption.
    rewrite IH by discriminate.
    f_equal. unfold set_connectTimer, emits; simpl. now rewrite <- app_assoc.
Qed.

Lemma handle_and_timer_stable (i : Input) (x t : option nat) :
  match i with SubscribeReq _ | UnsubscribeReq _ | OnMessage _ => True | _ => False end ->
  stable (fun s => connection_ s = x /\ connectTimer s = t) (runLoop_case i).
Proof.
  destruct i; try contradiction; intros _;
    open_cases; unfold send; stable_tac; simpl; auto.
Qed.

Lemma perform_dial_pending (a : Action) (s s' : Client) :
  dial_pending_iff_no_handle s ->
  perform a s = Running s' ->
  dial_pending_iff_no_handle s'.
Proof.
  intros Hinv Hrun.
  assert (forall i s0,
            match i with
            | SubscribeReq _ | UnsubscribeReq _ | OnMessage _ => True
            | _ => False
            end ->
            connection_ s0 = connection_ s -> connectTimer s0 = connectTimer s ->
            step i s0 = Running s' -> dial_pending_iff_no_handle s') as Hkeep.
  { intros i s0 Hi Hc Ht Hstep.
    pose proof (step_stable _ i s0 (handle_and_timer_stable i _ _ Hi) (conj Hc Ht)) as H.
    rewrite Hstep in H. simpl in H. destruct H as [H1 H2].
    unfold dial_pending_iff_no_handle in *. now rewrite H1, H2. }
  destruct a; simpl in Hrun.
  - destruct (Subscribe channel s) as [p s1] eqn:E.
    apply (Hkeep (SubscribeReq p) s1 I); [| |exact Hrun];
      destruct (Subscribe_allocates channel s) as [H|H];
      rewrite E in H; simpl in H; subst s1; reflexivity.
  - apply (Hkeep (UnsubscribeReq channel) s I); auto.
  - rewrite step_disconnect in Hrun. simpl in Hrun.
    destruct (connection_ s) as [c|]; [destruct (conns s !! c)|]; discriminate.
  - injection Hrun as <-. exact Hinv.
  - unfold ready in Hrun. unfold dial_pending_iff_no_handle in Hinv.
    destruct (connectTimer s) eqn:Et.
    + destruct (connection_ s) eqn:Ec; [contradiction|].
      destruct d; injection Hrun as <-; unfold dial_pending_iff_no_handle; simpl;
        rewrite ?Ec; exact I.
    + injection Hrun as <-. unfold dial_pending_iff_no_handle. now rewrite Et.
  - apply (Hkeep (OnMessage message) s I); auto.
  - rewrite step_onClose in Hrun. injection Hrun as <-. exact I.
Qed.

(** X7: in every execution of a new client, whenever the loop is back at
    its [select] the reconnect timer is armed exactly when no connection
    is held.  So a dial is only ever attempted without a connection, and
    a lost connection always has a reconnect pending. *)
Theorem reconnect_pending_iff_no_connection
    (c : ClientConfig) (userData : Member) (acts : list Action) (s : Client) :
  run acts (NewWithConfig c userData) = Running s ->
  dial_pending_iff_no_handle s.
Proof.
  assert (forall acts s0 s1, dial_pending_iff_no_handle s0 ->
            run acts s0 = Running s1 -> dial_pending_iff_no_handle s1) as H.
  { clear. intros acts. induction acts as [|a acts IH]; intros s0 s1 H0 Hrun;
      simpl in Hrun.
    - injection Hrun as <-. exact H0.
    - destruct (perform a s0) as [s2| |] eqn:E; try discriminate.
      eapply IH; [|exact Hrun]. eapply perform_dial_pending; eauto. }
  apply H. exact I.
Qed.

Lemma send_client_frame (event : string) (data : gmap string string) :
  event = "pusher:subscribe" \/ event = "pusher:unsubscribe" ->
  stable (fun s => Forall client_frame (wire (trace s))) (send (encode event data None)).
Proof.
  intros Hev s H. unfold send, bind, the_connection.
  destruct (connection_ s) as [k|]; [|exact H].
  destruct (conns s !! k); [|exact H].
  simpl. rewrite wire_app. apply Forall_app. split; [exact H|].
  constructor; [|constructor]. split; [exact Hev | reflexivity].
Qed.

(** X9: the only frames a client ever puts on the wire are
    [pusher:subscribe] and [pusher:unsubscribe] frames, and none of them
    carries a top-level channel. *)
Theorem only_subscribe_and_unsubscribe_frames
    (c : ClientConfig) (userData : Member) (acts : list Action) :
  Forall client_frame (wire (trace (state_of (run acts (NewWithConfig c userData))))).
Proof.
  apply (run_keeps (fun x => Forall client_frame (wire (trace x)))).
  - apply perform_keeps.
    + intros i. destruct i; open_cases;
        repeat first [ apply send_client_frame; auto | stable_step ];
        simpl; rewrite ?wire_app, ?app_nil_r; auto.
    + intros s0 ch H. exact H.
    + intros s0 h H. exact H.
  - constructor.
Qed.

End RunFacts.

(** ** The registry over time *)

Section RegistryOverTime.
Context `{Ext : Externals}.

Ltac open_cases :=
  unfold runLoop_case, case_connectTimer, case_subscribe, case_unsubscribe,
    case_onMessage, case_disconnect, case_onClose, subscribe, unsubscribe,
    triggerEventCallback, store_Subscribed.

(** No case body drops or reorders registry entries. *)
Lemma registry_prefix_stable (i : Input) (l0 : list nat) :
  stable (fun s => exists more, Channels s = l0 ++ more) (runLoop_case i).
Proof.
  destruct i; open_cases; unfold send; stable_tac; simpl in *; auto.
  destruct H as [more H]. exists (more ++ [c]). now rewrite H, app_assoc.
Qed.

(** No case body renames, allocates or frees a channel. *)
Lemma step_keeps_names (i : Input) (s : Client) :
  registry_valid s ->
  names (state_of (step i s)) = names s.
Proof.
  intros Hvalid.
  destruct (String.eqb_spec
              match i with
              | OnMessage message => Event_Name (fst (decode message))
              | _ => ""
              end "pusher_internal:subscription_succeeded") as [Hs|Hs].
  - destruct i; try discriminate Hs.
    rewrite (step_subscription_succeeded s message Hs Hvalid).
    apply names_mark_subscribed.
  - apply (step_stable (fun x => names x = names s)); [|reflexivity].
    unfold names.
    destruct i; open_cases; unfold send;
      try (apply String.eqb_neq in Hs; rewrite Hs);
      stable_tac; simpl in *; rewrite ?names_alter by reflexivity; auto.
Qed.

Lemma perform_grows_registry (a : Action) (s : Client) :
  registry_valid s ->
  (exists more, Channels (state_of (perform a s)) = Channels s ++ more) /\
  (exists more, names (state_of (perform a s)) = names s ++ more).
Proof.
  intros Hvalid.
  assert (forall i s0, registry_valid s0 ->
            (exists more, Channels s0 = Channels s ++ more) ->
            (exists more, names s0 = names s ++ more) ->
            (exists more, Channels (state_of (step i s0)) = Channels s ++ more) /\
            (exists more, names (state_of (step i s0)) = names s ++ more)) as Hstep.
  { intros i s0 H0 H1 H2. split.
    - apply (step_stable _ i s0 (registry_prefix_stable i (Channels s)) H1).
    - now rewrite step_keeps_names. }
  assert (exists more, Channels s = Channels s ++ more) as Hl
    by (exists []; now rewrite app_nil_r).
  assert (exists more, names s = names s ++ more) as Hn
    by (exists []; now rewrite app_nil_r).
  destruct a; simpl; try (apply Hstep; assumption).
  - pose proof (perform_registry_valid (ASubscribe channel) s Hvalid) as Hv1.
    unfold Subscribe in *. simpl in Hv1.
    destruct (lookup_channel (chans s) (Channels s) channel) as [p|] eqn:E.
    + apply Hstep; assumption.
    + apply Hstep.
      * unfold registry_valid in *. simpl. rewrite length_app.
        eapply Forall_impl; [exact Hvalid|]. simpl. intros; lia.
      * exact Hl.
      * exists [channel]. unfold names. simpl. now rewrite fmap_app.
  - auto.
  - destruct (connectTimer s); [apply Hstep; assumption | auto].
Qed.

Lemma run_grows_registry (acts : list Action) (s : Client) :
  registry_valid s ->
  (exists more, Channels (state_of (run acts s)) = Channels s ++ more) /\
  (exists more, names (state_of (run acts s)) = names s ++ more).
Proof.
  revert s; induction acts as [|a acts IH]; intros s Hvalid; simpl.
  - split; exists []; now rewrite app_nil_r.
  - pose proof (perform_grows_registry a s Hvalid) as [[l1 H1] [n1 H2]].
    pose proof (perform_registry_valid a s Hvalid) as Hv1.
    destruct (perform a s) as [s1| |]; simpl in *.
    + destruct (IH s1 Hv1) as [[l2 H3] [n2 H4]]. split.
      * exists (l1 ++ l2). now rewrite H3, H1, app_assoc.
      * exists (n1 ++ n2). now rewrite H4, H2, app_assoc.
    + split; eauto.
    + split; eauto.
Qed.

(** X10: channels are never forgotten and never renamed.  Along every
    execution the registry keeps all its entries in order and only gains
    new ones at the end, every entry points at an allocated channel, and
    the channel behind an address keeps its name. *)
Theorem registry_only_grows (acts : list Action) (s : Client) :
  registry_valid s ->
  (exists more, Channels (state_of (run acts s)) = Channels s ++ more) /\
  (exists more, names (state_of (run acts s)) = names s ++ more) /\
  registry_valid (state_of (run acts s)).
Proof.
  intros Hvalid. destruct (run_grows_registry acts s Hvalid) as [H1 H2].
  split; [exact H1|]. split; [exact H2|]. now apply run_registry_valid.
Qed.

Lemma lookup_channel_names (h h' : list Channel) (l : list nat) (channel : string)
    (more : list string) :
  Forall (fun p => p < length h) l ->
  Name <$> h' = (Name <$> h) ++ more ->
  lookup_channel h' l channel = lookup_channel h l channel.
Proof.
  intros Hvalid Hn. induction Hvalid as [|p l Hp _ IH]; simpl; [reflexivity|].
  assert (Name <$> (h' !! p) = Name <$> (h !! p)) as Hlook.
  { rewrite <- !list_lookup_fmap, Hn. apply lookup_app_l. now rewrite length_fmap. }
  destruct (h' !! p) as [ch'|], (h !! p) as [ch|]; simpl in Hlook; try discriminate.
  - injection Hlook as ->. now rewrite IH.
  - exact IH.
Qed.

(** A name found in the registry is found at the same address for ever. *)
Lemma lookup_channel_permanent (acts : list Action) (s : Client) (channel : string)
    (p : nat) :
  registry_valid s ->
  lookup_channel (chans s) (Channels s) channel = Some p ->
  lookup_channel (chans (state_of (run acts s))) (Channels (state_of (run acts s)))
    channel = Some p.
Proof.
  intros Hvalid Hfound.
  destruct (run_grows_registry acts s Hvalid) as [[l1 H1] [n1 H2]].
  rewrite H1, lookup_channel_app.
  rewrite (lookup_channel_names (chans s) _ (Channels s) channel n1 Hvalid H2).
  now rewrite Hfound.
Qed.

(** X11: the handle of a channel is permanent.  Once a subscribe request
    for a name has been processed, every later [Subscribe] of that name,
    whatever happened in between, returns the pointer the first call
    returned and allocates nothing. *)
Theorem Subscribe_handle_is_permanent
    (s s1 : Client) (channel : string) (acts : list Action) :
  registry_valid s ->
  perform (ASubscribe channel) s = Running s1 ->
  Subscribe channel (state_of (run acts s1)) =
    ((Subscribe channel s).1, state_of (run acts s1)).
Proof.
  intros Hvalid Hrun.
  pose proof (perform_registry_valid (ASubscribe channel) s Hvalid) as Hv1.
  rewrite Hrun in Hv1. simpl in Hv1.
  pose proof (Subscribe_same_handle channel s s1 Hvalid Hrun) as Hsame.
  assert (lookup_channel (chans s1) (Channels s1) channel = Some (Subscribe channel s).1)
    as Hfound.
  { unfold Subscribe in Hsame at 1.
    destruct (lookup_channel (chans s1) (Channels s1) channel) as [q|].
    - now injection Hsame as ->.
    - injection Hsame as _ Hs. apply (f_equal chans) in Hs. simpl in Hs.
      apply (f_equal length) in Hs. rewrite length_app in Hs. simpl in Hs. lia. }
  unfold Subscribe at 1.
  now rewrite (lookup_channel_permanent acts s1 channel _ Hv1 Hfound).
Qed.

End RegistryOverTime.

(** ** Subscribe requests *)

Section SubscribeRequests.
Context `{Ext : Externals}.

(** X12: a wire subscribe has two outcomes only.  When the authorisation
    step goes through it sends exactly one [pusher:subscribe] frame for
    the channel; when it does not (no callback configured, the callback
    refuses, or the caller identity does not serialise) the loop panics
    and no frame has been sent. *)
Theorem subscribe_sends_one_frame_or_panics
    (s : Client) (p c : nat) (ch : Channel) (k : connection) :
  chans s !! p = Some ch ->
  connection_ s = Some c ->
  conns s !! c = Some k ->
  if can_sign s (socketID k) ch then
    exists (es : list Effect) (f : Frame),
      subscribe p s = Val tt (emits es s) /\
      wire es = [(c, f)] /\
      subscribe_frame_for c (Name ch) (c, f)
  else
    exists (w : string) (es : list Effect),
      subscribe p s = Panic w (emits es s) /\ wire es = [].
Proof.
  intros Hp Hc Hk. destruct (can_sign s (socketID k) ch) eqn:Hsign.
  - now apply (subscribe_signed s p c ch k).
  - unfold can_sign in Hsign.
    destruct (isPrivate ch) eqn:Epriv.
    + pose proof (private_not_presence ch Epriv) as Epres.
      rewrite Epres, andb_true_r in Hsign.
      destruct (Auth (config s)) as [authFunc|] eqn:Eauth.
      * rewrite (subscribe_private s p c ch k authFunc) by assumption.
        destruct (authFunc (socketID k) (Name ch)) as [auth|e]; [discriminate|].
        eexists _, _. split; reflexivity.
      * exists nil_dereference, []. rewrite emits_nil. split; [|reflexivity].
        unfold subscribe.
        repeat (run_monad; rewrite ?Hp, ?Epriv, ?Hc, ?Hk, ?Eauth). reflexivity.
    + simpl in Hsign. destruct (isPresence ch) eqn:Epres; [|discriminate].
      destruct (json_Marshal_Member (UserData s)) as [D|e] eqn:ED; [discriminate|].
      exists e, []. rewrite emits_nil. split; [|reflexivity].
      unfold subscribe.
      repeat (run_monad; rewrite ?Hp, ?Epriv, ?Epres, ?Hc, ?Hk, ?ED). reflexivity.
Qed.

Lemma Subscribe_keeps (channel : string) (s : Client) :
  connection_ (Subscribe channel s).2 = connection_ s /\
  conns (Subscribe channel s).2 = conns s /\
  Connected (Subscribe channel s).2 = Connected s /\
  Channels (Subscribe channel s).2 = Channels s /\
  trace (Subscribe channel s).2 = trace s.
Proof.
  destruct (Subscribe_allocates channel s) as [-> | ->]; repeat split.
Qed.

(** X13: [Subscribe] of a public channel on a connected client sends the
    frame at once: exactly one [pusher:subscribe] frame whose data is the
    channel name alone, with no authorisation call, whether or not the
    channel was registered before; and the returned pointer is appended to
    the registry. *)
Theorem Subscribe_public_while_connected
    (s : Client) (channel : string) (k : nat) (kc : connection) :
  Connected s = true ->
  connection_ s = Some k ->
  conns s !! k = Some kc ->
  String.prefix "private-" channel = false ->
  String.prefix "presence-" channel = false ->
  exists s' : Client,
    perform (ASubscribe channel) s = Running s' /\
    trace s' = trace s ++
      [EvSend k (mkFrame "pusher:subscribe" {[ "channel" := channel ]} None)] /\
    Channels s' = Channels s ++ [(Subscribe channel s).1].
Proof.
  intros Hf Hc Hk Hpriv Hpres.
  destruct (Subscribe_valid channel s) as (ch & Hp & Hn).
  destruct (Subscribe_keeps channel s) as (Hc1 & Hk1 & Hf1 & Hl1 & Ht1).
  simpl. destruct (Subscribe channel s) as [p s1]. simpl in *.
  assert (subscribe p s1 =
          Val tt (emits [EvSend k (mkFrame "pusher:subscribe"
                                     {[ "channel" := Name ch ]} None)] s1)) as Hsub.
  { apply (subscribe_public s1 p k ch kc).
    - exact Hp.
    - unfold isPrivate. now rewrite Hn.
    - unfold isPresence. now rewrite Hn.
    - now rewrite Hc1.
    - now rewrite Hk1. }
  eexists. split.
  - unfold step, runLoop_case, case_subscribe, bind at 1, get at 1, bind at 1.
    rewrite Hf1, Hf, Hsub. reflexivity.
  - simpl. rewrite Hn, Ht1, Hl1. split; reflexivity.
Qed.

Lemma Subscribe_before_connected_is_deferred_aux (s : Client) (channel : string) :
  Connected s = false ->
  exists s' : Client,
    perform (ASubscribe channel) s = Running s' /\
    trace s' = trace s /\
    Connected s' = false.
Proof.
  intros Hf.
  destruct (Subscribe_keeps channel s) as (Hc1 & Hk1 & Hf1 & Hl1 & Ht1).
  simpl. destruct (Subscribe channel s) as [p s1]. simpl in *.
  eexists. split.
  - unfold step, runLoop_case, case_subscribe, bind, get, ret, modify.
    rewrite Hf1, Hf. reflexivity.
  - simpl. rewrite Ht1, Hf1. auto.
Qed.

(** X14: [Subscribe] on a client that has never been connected is
    deferred, whatever the kind of the channel: nothing is sent, the
    authorisation callback is not called, and the returned pointer is
    appended to the registry, where connection-established will find it. *)
Theorem Subscribe_before_connected_is_deferred (s : Client) (channel : string) :
  Connected s = false ->
  exists s' : Client,
    perform (ASubscribe channel) s = Running s' /\
    trace s' = trace s /\
    Channels s' = Channels s ++ [(Subscribe channel s).1] /\
    chans s' = chans (Subscribe channel s).2 /\
    connection_ s' = connection_ s /\
    Connected s' = false.
Proof.
  intros Hf.
  destruct (Subscribe_keeps channel s) as (Hc1 & Hk1 & Hf1 & Hl1 & Ht1).
  simpl. destruct (Subscribe channel s) as [p s1]. simpl in *.
  eexists. split.
  - unfold step, runLoop_case, case_subscribe, bind, get, ret, modify.
    rewrite Hf1, Hf. reflexivity.
  - simpl. rewrite Ht1, Hl1, Hc1, Hf1. repeat split. exact Hf.
Qed.

Lemma filter_all {A} (f : A -> bool) (l : list A) :
  Forall (fun x => f x = true) l -> List.filter f l = l.
Proof.
  induction 1 as [|x l Hx _ IH]; [reflexivity|]. simpl. now rewrite Hx, IH.
Qed.

Lemma run_step (a : Action) (rest : list Action) (s s1 : Client) :
  perform a s = Running s1 -> run (a :: rest) s = run rest s1.
Proof. intros H. simpl. now rewrite H. Qed.

Lemma run_step_last (a : Action) (s s1 : Client) :
  perform a s = Running s1 -> run [a] s = Running s1.
Proof. intros H. simpl. now rewrite H. Qed.

(** The connection-established case, given what its loop does. *)
Lemma step_established (s : Client) (message : string) (k : nat) (kc : connection)
    (es : list Effect) :
  Event_Name (fst (decode message)) = "pusher:connection_established" ->
  connection_ s = Some k ->
  conns s !! k = Some kc ->
  forEach (Channels s) (fun p =>
    let* ch := deref p in
    if negb (Subscribed ch) then subscribe p else ret tt)
    (set_Connected true
       (set_conns (<[ k := mkConnection (carried_socketID message) ]> (conns s)) s)) =
  Val tt (emits es
    (set_Connected true
       (set_conns (<[ k := mkConnection (carried_socketID message) ]> (conns s)) s))) ->
  step (OnMessage message) s =
  Running (emits es
    (set_Connected true
       (set_conns (<[ k := mkConnection (carried_socketID message) ]> (conns s)) s))).
Proof.
  intros Hname Hc Hk Hloop.
  unfold step, runLoop_case, case_onMessage.
  rewrite Hname, String.eqb_refl.
  unfold bind, get, modify, ret, the_connection in Hloop |- *.
  rewrite Hc, Hk. simpl fst.
  unfold carried_socketID in Hloop. rewrite Hloop. reflexivity.
Qed.

Lemma can_sign_by_name (s s' : Client) (sid : string) (ch ch' : Channel) :
  config s' = config s -> UserData s' = UserData s -> Name ch' = Name ch ->
  can_sign s' sid ch' = can_sign s sid ch.
Proof.
  intros Hcfg Hud Hn. unfold can_sign, isPrivate, isPresence.
  now rewrite Hcfg, Hud, Hn.
Qed.

(** X15: reconnection resubscribes the whole registry.  When the transport
    is reported closed, a later dial succeeds and the relay sends
    connection-established, the client sends one fresh [pusher:subscribe]
    frame for every registry entry, in registry order, on the new
    connection: for the channels that were subscribed and equally for
    those the caller had unsubscribed. *)
Theorem reconnection_resubscribes_every_channel (s : Client) (message : string) :
  Event_Name (fst (decode message)) = "pusher:connection_established" ->
  registry_valid s ->
  Forall (fun p => signable s (carried_socketID message) p = true) (Channels s) ->
  exists s' : Client,
    run [AClose; ATimer DialOk; AMessage message] s = Running s' /\
    connection_ s' = Some (length (conns s)) /\
    conns s' !! length (conns s) = Some (mkConnection (carried_socketID message)) /\
    Connected s' = true /\
    Channels s' = Channels s /\
    exists frames : list (nat * Frame),
      wire (trace s') = wire (trace s) ++ frames /\
      Forall2 (fun p cf => exists ch, chans s !! p = Some ch /\
                 subscribe_frame_for (length (conns s)) (Name ch) cf)
              (Channels s) frames.
Proof.
  intros Hname Hvalid Hsign.
  set (sid := carried_socketID message) in *.
  set (k := length (conns s)).
  set (h1 := mark_unsubscribed (chans s) (Channels s)).
  set (sA := set_connectTimer (Some 1) (set_connection None (set_chans h1 s))).
  set (sB := set_connection (Some k)
               (set_conns (conns s ++ [dialled_connection])
                  (emit EvDial (set_connectTimer None sA)))).
  set (s3 := set_Connected true
               (set_conns (<[ k := mkConnection sid ]> (conns sB)) sB)).
  assert (conns s3 !! k = Some (mkConnection sid)) as Hk3.
  { simpl. apply list_lookup_insert_eq. rewrite length_app. simpl. unfold k. lia. }
  assert (forall p, p < length (chans s) ->
            exists ch ch', chans s !! p = Some ch /\ h1 !! p = Some ch' /\
                           Name ch' = Name ch) as Hlook.
  { intros p Hp. destruct (lookup_lt_is_Some_2 _ _ Hp) as [ch Hch].
    pose proof (names_mark_unsubscribed (Channels s) (chans s)) as Hn.
    apply (f_equal (fun l => l !! p)) in Hn. rewrite !list_lookup_fmap, Hch in Hn.
    fold h1 in Hn. destruct (h1 !! p) as [ch'|]; [|discriminate].
    injection Hn as Hn. eauto. }
  assert (List.filter (fun p => negb (reports_subscribed s3 p)) (Channels s) = Channels s)
    as Hpending.
  { apply filter_all. eapply Forall_impl;
      [apply (mark_unsubscribed_all (Channels s) (chans s))|].
    intros p Hp.
    change (negb (flag (mark_unsubscribed (chans s) (Channels s)) p) = true).
    now rewrite Hp. }
  destruct (established_loop (Channels s) s3 k (mkConnection sid) eq_refl Hk3)
    as (es & Hloop & Hall).
  { eapply Forall_impl; [exact Hvalid|]. intros p Hp. simpl in Hp.
    destruct (Hlook p Hp) as (ch & ch' & _ & H' & _). simpl. eauto. }
  { rewrite Hpending. unfold registry_valid in Hvalid.
    rewrite Forall_forall in Hsign, Hvalid. apply Forall_forall. intros p Hin.
    specialize (Hsign p Hin). specialize (Hvalid p Hin).
    destruct (Hlook p Hvalid) as (ch & ch' & H & H' & Hn).
    unfold signable in *. simpl. rewrite H'. rewrite H in Hsign.
    rewrite <- Hsign. now apply can_sign_by_name. }
  exists (emits es s3). split.
  - rewrite (run_step AClose _ s sA (step_onClose s)).
    rewrite (run_step (ATimer DialOk) [AMessage message] sA sB eq_refl).
    apply run_step_last.
    apply (step_established sB message k dialled_connection es Hname eq_refl).
    + simpl. unfold k. rewrite lookup_app_r by lia. now rewrite Nat.sub_diag.
    + exact Hloop.
  - split; [reflexivity|]. split; [exact Hk3|]. split; [reflexivity|].
    split; [reflexivity|].
    exists (wire es). split.
    + simpl. rewrite !wire_app. simpl. now rewrite app_nil_r.
    + rewrite Hpending in Hall. eapply Forall2_impl; [exact Hall|].
      intros p cf (ch' & H' & Hf). simpl in H'.
      assert (p < length (chans s)) as Hp.
      { apply lookup_lt_Some in H'. unfold h1 in H'.
        clear -H'. revert H'. generalize (chans s).
        induction (Channels s) as [|q l IH]; intros h H; simpl in *; [exact H|].
        apply IH in H. now rewrite length_alter in H. }
      destruct (Hlook p Hp) as (ch & ch2 & H & H2 & Hn).
      rewrite H' in H2. injection H2 as <-. exists ch. rewrite <- Hn. auto.
Qed.

End SubscribeRequests.

(** ** Disconnecting, listening, and the first connection *)

Section Lifecycle.
Context `{Ext : Externals}.

Ltac open_cases :=
  unfold runLoop_case, case_connectTimer, case_subscribe, case_unsubscribe,
    case_onMessage, case_disconnect, case_onClose, subscribe, unsubscribe,
    triggerEventCallback, store_Subscribed.

(** X16: [Disconnect()] on a client that holds a connection completes:
    every registry channel ends unsubscribed, the socket of the current
    connection is closed once and then the acknowledgment is produced,
    nothing is sent, the handle is dropped, the timer stopped, and the
    loop returns, so that no later action is serviced. *)
Theorem Disconnect_with_transport_completes
    (s : Client) (c : nat) (k : connection) (later : list Action) :
  connection_ s = Some c ->
  conns s !! c = Some k ->
  exists s' : Client,
    run (ADisconnect :: later) s = Exited s' /\
    Forall (fun p => reports_subscribed s' p = false) (Channels s') /\
    trace s' = trace s ++ [EvWsClose c; EvAck] /\
    connection_ s' = None /\
    connectTimer s' = None /\
    Channels s' = Channels s.
Proof.
  intros Hc Hk.
  destruct (disconnect_with_transport s c k Hc Hk)
    as (s' & Hstep & Hall & Hnil & Ht & Hl & Htr).
  exists s'. simpl. rewrite Hstep. auto 10.
Qed.

(** X17: a connection-established frame processed while no connection is
    held panics the loop on the nil handle, before any state has
    changed. *)
Theorem established_without_connection_panics (s : Client) (message : string) :
  Event_Name (fst (decode message)) = "pusher:connection_established" ->
  connection_ s = None ->
  step (OnMessage message) s = Panicked nil_dereference s.
Proof.
  intros Hname Hc. unfold step, runLoop_case, case_onMessage.
  rewrite Hname, String.eqb_refl.
  unfold bind, get, the_connection. now rewrite Hc.
Qed.

(** X18: a listener registered with [BindGlobal] receives the next
    application event exactly once, every listener registered before it
    still receives it once, and the per-binding listener is served before
    all of them.  The global listeners are compared up to permutation: Go
    does not fix the order in which the map is visited. *)
Theorem BindGlobal_listener_receives_next_event (s : Client) (message : string) :
  control_event (Event_Name (fst (decode message))) = false ->
  exists handlers,
    Permutation handlers ((BindGlobal s).1 :: globalBindings s) /\
    run [ABindGlobal; AMessage message] s =
      Running (emits
        (binding_delivery s (Event_Channel (fst (decode message)))
           (Event_Name (fst (decode message)))
           (DString (Event_Data (fst (decode message)))) ++
         map (fun handler =>
                EvHandler handler (Event_Channel (fst (decode message)))
                  (Event_Name (fst (decode message)))
                  (DString (Event_Data (fst (decode message)))))
             handlers)
        (BindGlobal s).2).
Proof.
  intros Hname. unfold control_event in Hname.
  apply orb_false_iff in Hname as [Hname H4].
  apply orb_false_iff in Hname as [Hname H3].
  apply orb_false_iff in Hname as [H1 H2].
  exists (globalBindings s ++ [(BindGlobal s).1]). split.
  { symmetry. apply Permutation_cons_append. }
  simpl. unfold step, runLoop_case, case_onMessage. rewrite H1, H2, H3, H4.
  unfold bind, get. rewrite triggerEventCallback_dispatches.
  unfold dispatched, binding_delivery. reflexivity.
Qed.

Lemma unsubscribe_only_stable (i : Input) :
  match i with
  | SubscribeReq _ => False
  | OnMessage message =>
      String.eqb (Event_Name (fst (decode message))) "pusher:connection_established"
        = false
  | _ => True
  end ->
  stable (fun s => Connected s = false /\
                   Forall (fun cf => frame_event cf.2 = "pusher:unsubscribe")
                          (wire (trace s)))
         (runLoop_case i).
Proof.
  assert (forall data,
            stable (fun s => Connected s = false /\
                     Forall (fun cf => frame_event cf.2 = "pusher:unsubscribe")
                            (wire (trace s)))
                   (send (encode "pusher:unsubscribe" data None))) as Hsend.
  { intros data s [Hf H]. unfold send, bind, the_connection.
    destruct (connection_ s) as [k|]; [|auto].
    destruct (conns s !! k); [|auto]. simpl. split; [exact Hf|].
    rewrite wire_app. apply Forall_app. split; [exact H|]. now repeat constructor. }
  destruct i; try contradiction; intros Hi;
    unfold runLoop_case, case_connectTimer, case_unsubscribe, case_onMessage,
      case_disconnect, case_onClose, unsubscribe, triggerEventCallback,
      store_Subscribed;
    rewrite ?Hi;
    repeat first [ apply Hsend | stable_step ];
    simpl; rewrite ?wire_app, ?app_nil_r; auto.
Qed.

(** X19: until a connection-established event has been processed, the
    [Connected] flag is false and no subscribe frame is sent, whatever is
    requested and whatever else arrives: every frame on the wire is an
    unsubscribe frame. *)
Theorem no_subscribe_before_established
    (c : ClientConfig) (userData : Member) (acts : list Action) :
  Forall (fun a => is_established a = false) acts ->
  Connected (state_of (run acts (NewWithConfig c userData))) = false /\
  Forall (fun cf => frame_event cf.2 = "pusher:unsubscribe")
         (wire (trace (state_of (run acts (NewWithConfig c userData))))).
Proof.
  set (P := fun s : Client => Connected s = false /\
              Forall (fun cf : nat * Frame => frame_event cf.2 = "pusher:unsubscribe")
                     (wire (trace s))).
  assert (forall acts s, Forall (fun a => is_established a = false) acts ->
            P s -> P (state_of (run acts s))) as Hrun.
  { clear acts. intros acts. induction acts as [|a acts IH]; intros s Hno HP;
      [exact HP|].
    inversion Hno as [|? ? Ha Hno']; subst.
    assert (P (state_of (perform a s))) as H1.
    { destruct a; [|simpl..].
      - destruct HP as [Hf Hw].
        destruct (Subscribe_before_connected_is_deferred_aux s channel Hf)
          as (s' & -> & Ht & Hf'). simpl. unfold P. now rewrite Ht.
      - apply step_stable; [now apply unsubscribe_only_stable | exact HP].
      - apply step_stable; [now apply unsubscribe_only_stable | exact HP].
      - exact HP.
      - destruct (connectTimer s); [|exact HP].
        apply step_stable; [now apply unsubscribe_only_stable | exact HP].
      - apply step_stable; [apply unsubscribe_only_stable; exact Ha | exact HP].
      - apply step_stable; [now apply unsubscribe_only_stable | exact HP]. }
    rewrite run_cons. destruct (perform a s) as [s1| |]; [apply IH; assumption|..];
      exact H1. }
  intros Hno. apply Hrun; [exact Hno|]. split; [reflexivity | constructor].
Qed.

End Lifecycle.

(** ** The guards of the request cases *)

Section Guards.
Context `{Ext : Externals}.





End Guards.

(** ** Connection established, with channels that cannot be authorised *)

Section Refusal.
Context `{Ext : Externals}.

(** A wire subscribe whose authorisation step fails panics with nothing
    sent. *)
Lemma subscribe_refused (s : Client) (p c : nat) (ch : Channel) (k : connection) :
  chans s !! p = Some ch ->
  connection_ s = Some c ->
  conns s !! c = Some k ->
  can_sign s (socketID k) ch = false ->
  exists (w : string) (es : list Effect),
    subscribe p s = Panic w (emits es s) /\ wire es = [].
Proof.
  intros Hp Hc Hk Hsign. unfold can_sign in Hsign.
  destruct (isPrivate ch) eqn:Epriv.
  - pose proof (private_not_presence ch Epriv) as Epres.
    rewrite Epres, andb_true_r in Hsign.
    destruct (Auth (config s)) as [authFunc|] eqn:Eauth.
    + rewrite (subscribe_private s p c ch k authFunc) by assumption.
      destruct (authFunc (socketID k) (Name ch)) as [auth|e]; [discriminate|].
      eexists _, _. split; reflexivity.
    + exists nil_dereference, []. rewrite emits_nil. split; [|reflexivity].
      unfold subscribe.
      repeat (run_monad; rewrite ?Hp, ?Epriv, ?Hc, ?Hk, ?Eauth). reflexivity.
  - simpl in Hsign. destruct (isPresence ch) eqn:Epres; [|discriminate].
    destruct (json_Marshal_Member (UserData s)) as [D|e] eqn:ED; [discriminate|].
    exists e, []. rewrite emits_nil. split; [|reflexivity].
    unfold subscribe.
    repeat (run_monad; rewrite ?Hp, ?Epriv, ?Epres, ?Hc, ?Hk, ?ED). reflexivity.
Qed.

Lemma authorised_prefix_all (s : Client) (sid : string) (l : list nat) :
  forallb (signable s sid) l = true -> authorised_prefix s sid l = l.
Proof.
  induction l as [|p l IH]; [reflexivity|]. simpl.
  destruct (signable s sid p); [|discriminate]. simpl. intros H. now rewrite IH.
Qed.

Lemma authorised_prefix_short (s : Client) (sid : string) (l : list nat) :
  forallb (signable s sid) l = false ->
  length (authorised_prefix s sid l) < length l.
Proof.
  induction l as [|p l IH]; [discriminate|]. simpl.
  destruct (signable s sid p); simpl; intros H; [|lia].
  specialize (IH H). lia.
Qed.

Lemma authorised_prefix_ext (s s' : Client) (sid : string) (l : list nat) :
  (forall p, signable s' sid p = signable s sid p) ->
  authorised_prefix s' sid l = authorised_prefix s sid l.
Proof.
  intros H. induction l as [|p l IH]; [reflexivity|]. simpl. now rewrite H, IH.
Qed.

(** The loop over the registry run on connection-established: it goes
    through the pending entries in order and stops, by panic, at the first
    one that cannot be authorised. *)
Lemma established_loop_until_refused
    (l : list nat) (s : Client) (c : nat) (k : connection) :
  connection_ s = Some c ->
  conns s !! c = Some k ->
  Forall (fun p => is_Some (chans s !! p)) l ->
  exists es : list Effect,
    Forall2 (fun p cf => exists ch, chans s !! p = Some ch /\
                                    subscribe_frame_for c (Name ch) cf)
            (authorised_prefix s (socketID k)
               (List.filter (fun p => negb (reports_subscribed s p)) l))
            (wire es) /\
    if forallb (signable s (socketID k))
         (List.filter (fun p => negb (reports_subscribed s p)) l)
    then forEach l (fun p =>
           let* ch := deref p in
           if negb (Subscribed ch) then subscribe p else ret tt) s = Val tt (emits es s)
    else exists w, forEach l (fun p =>
           let* ch := deref p in
           if negb (Subscribed ch) then subscribe p else ret tt) s = Panic w (emits es s).
Proof.
  revert s; induction l as [|p l IH]; intros s Hc Hk Hvalid.
  - exists []. rewrite emits_nil. split; [constructor | reflexivity].
  - inversion Hvalid as [|? ? [ch Hp] Hvalid']; subst.
    rewrite forEach_cons.
    assert ((let* ch := deref p in
             if negb (Subscribed ch) then subscribe p else ret tt) s =
            if negb (Subscribed ch) then subscribe p s else Val tt s) as ->.
    { unfold bind, deref. rewrite Hp. now destruct (Subscribed ch). }
    assert (reports_subscribed s p = Subscribed ch) as Hflag.
    { unfold reports_subscribed, flag. now rewrite Hp. }
    simpl List.filter. rewrite Hflag.
    destruct (Subscribed ch) eqn:Hsub; simpl negb; cbv iota.
    + apply IH; assumption.
    + assert (signable s (socketID k) p = can_sign s (socketID k) ch) as Hs.
      { unfold signable. now rewrite Hp. }
      cbn [authorised_prefix forallb]. rewrite Hs.
      destruct (can_sign s (socketID k) ch) eqn:Hsign.
      * destruct (subscribe_signed s p c ch k Hp Hc Hk Hsign) as (es1 & f & -> & Hw & Hf).
        destruct (IH (emits es1 s) Hc Hk Hvalid') as (es2 & Hall & Hloop).
        rewrite (authorised_prefix_ext s) in Hall by reflexivity.
        exists (es1 ++ es2). rewrite <- emits_emits. split.
        -- rewrite wire_app, Hw. simpl. constructor; [|exact Hall].
           exists ch. split; assumption.
        -- exact Hloop.
      * destruct (subscribe_refused s p c ch k Hp Hc Hk Hsign) as (w & es1 & -> & Hw).
        exists es1. rewrite Hw. split; [constructor|].
        simpl. exists w. reflexivity.
Qed.

Lemma handle_valid_stable (i : Input) :
  stable (fun s => forall c, connection_ s = Some c -> c < length (conns s))
         (runLoop_case i).
Proof.
  destruct i; unfold runLoop_case, case_connectTimer, case_subscribe,
    case_unsubscribe, case_onMessage, case_disconnect, case_onClose, subscribe,
    unsubscribe, triggerEventCallback, store_Subscribed, send;
    stable_tac; simpl in *;
    rewrite ?length_app, ?length_insert; simpl; auto; try discriminate.
  intros c0 [= <-]. lia.
Qed.

(** In every execution of a new client the connection handle, when there
    is one, points at an allocated connection: the other side condition
    used for connection-established. *)
Lemma reachable_handle_points_at_connection
    (c : ClientConfig) (userData : Member) (acts : list Action) (k : nat) :
  connection_ (state_of (run acts (NewWithConfig c userData))) = Some k ->
  is_Some (conns (state_of (run acts (NewWithConfig c userData))) !! k).
Proof.
  intros Hk. apply lookup_lt_is_Some. revert k Hk.
  apply (run_keeps (fun s => forall k, connection_ s = Some k -> k < length (conns s))).
  - apply (perform_keeps
             (fun s => forall k, connection_ s = Some k -> k < length (conns s))).
    + apply handle_valid_stable.
    + intros s ch H. exact H.
    + intros s h H. exact H.
  - discriminate.
Qed.
(** C4 (amended): a connection-established event processed while a
    connection is held stores the carried socketID in that connection and
    sets the client fully connected; then the pending channels are
    subscribed in registry order.  When every pending channel can be
    authorised the loop goes on, having sent one subscribe frame for each
    of them and for no other.  Otherwise the loop panics at the first one
    that cannot: the frames sent are those of the pending channels before
    it, and the remaining ones are never subscribed. *)
Theorem connection_established_subscribes_until_refused
    (s : Client) (message : string) (c : nat) (k : connection) (sid : string) :
  Event_Name (fst (decode message)) = "pusher:connection_established" ->
  sid = carried_socketID message ->
  connection_ s = Some c ->
  conns s !! c = Some k ->
  Forall (fun p => is_Some (chans s !! p)) (Channels s) ->
  exists (s' : Client) (frames : list (nat * Frame)),
    conns s' !! c = Some (mkConnection sid) /\
    Connected s' = true /\
    connection_ s' = Some c /\
    chans s' = chans s /\
    Channels s' = Channels s /\
    wire (trace s') = wire (trace s) ++ frames /\
    if forallb (signable s sid) (pending s) then
      step (OnMessage message) s = Running s' /\
      Forall2 (fun p cf => exists ch, chans s !! p = Some ch /\
                                      subscribe_frame_for c (Name ch) cf)
              (pending s) frames
    else
      (exists why, step (OnMessage message) s = Panicked why s') /\
      Forall2 (fun p cf => exists ch, chans s !! p = Some ch /\
                                      subscribe_frame_for c (Name ch) cf)
              (authorised_prefix s sid (pending s)) frames /\
      length frames < length (pending s).
Proof.
  intros Hname -> Hc Hk Hvalid.
  set (sid := carried_socketID message) in *.
  set (s1 := set_Connected true
               (set_conns (<[ c := mkConnection sid ]> (conns s)) s)).
  assert (conns s1 !! c = Some (mkConnection sid)) as Hk1.
  { simpl. apply list_lookup_insert_eq. eapply lookup_lt_Some, Hk. }
  destruct (established_loop_until_refused (Channels s) s1 c (mkConnection sid)
              Hc Hk1 Hvalid) as (es & Hall & Hloop).
  change (List.filter (fun p => negb (reports_subscribed s1 p)) (Channels s))
    with (pending s) in Hall, Hloop.
  change (socketID (mkConnection sid)) with sid in Hall, Hloop.
  rewrite (authorised_prefix_ext s) in Hall by reflexivity.
  change (forallb (signable s1 sid) (pending s))
    with (forallb (signable s sid) (pending s)) in Hloop.
  assert (forall r,
            forEach (Channels s) (fun p =>
              let* ch := deref p in
              if negb (Subscribed ch) then subscribe p else ret tt) s1 = r ->
            step (OnMessage message) s =
              match r with
              | Val _ s' => Running s'
              | Panic w s' => Panicked w s'
              end) as Hstep.
  { intros r <-. unfold step, runLoop_case, case_onMessage.
    rewrite Hname, String.eqb_refl.
    unfold bind, get, modify, ret, the_connection.
    rewrite Hc, Hk. simpl fst. subst s1 sid. unfold carried_socketID.
    now destruct (forEach _ _ _). }
  exists (emits es s1), (wire es).
  split; [exact Hk1|]. split; [reflexivity|]. split; [exact Hc|].
  do 2 (split; [reflexivity|]).
  split; [simpl; apply wire_app|].
  destruct (forallb (signable s sid) (pending s)) eqn:Hsign.
  - split; [exact (Hstep _ Hloop)|].
    now rewrite (authorised_prefix_all s sid (pending s) Hsign) in Hall.
  - destruct Hloop as [w Hloop]. split; [exists w; exact (Hstep _ Hloop)|].
    split; [exact Hall|].
    apply Forall2_length in Hall. rewrite <- Hall.
    now apply authorised_prefix_short.
Qed.

End Refusal.

(** ** Worked executions

    The statements above, run on the sample environment: a client with
    key [key], secret [secret], the sample authorisation callback and the
    identity of user 42. *)

Import Sample.

Example awaiting_shape :
  connection_ awaiting = Some 0 /\ Connected awaiting = false /\
  Channels awaiting = [0; 1; 2] /\ conns awaiting = [mkConnection ""] /\
  wire (trace awaiting) = [].
Proof. vm_compute. repeat split. Qed.

Example connected_shape :
  connection_ connected = Some 0 /\ Connected connected = true /\
  conns connected = [mkConnection "1.1"] /\
  map (fun cf => frame_data cf.2 !! "channel") (wire (trace connected)) =
    [Some "updates"; Some "private-orders"; Some "presence-room"].
Proof. vm_compute. repeat split. Qed.

(** A callback error is fatal: nothing is sent and the request is lost. *)
Example private_denied_panics :
  exists s, perform (ASubscribe "private-denied") connected = Panicked "forbidden" s /\
            wire (trace s) = wire (trace connected) /\
            Channels s = Channels connected.
Proof. eexists. vm_compute. repeat split. Qed.

Lemma private_subscribe_witness :
  subscribe 1 connected =
    Val tt (emits [EvAuth "1.1" "private-orders";
                   EvSend 0 (mkFrame "pusher:subscribe"
                     (<[ "auth" := "sig(1.1,private-orders)" ]>
                        {[ "channel" := "private-orders" ]}) None)] connected).
Proof.
  apply (private_subscribe_calls_AuthFunc connected 1 0
           (mkChannel "private-orders" false None) (mkConnection "1.1") authFunc);
    vm_compute; reflexivity.
Defined.

Lemma presence_subscribe_witness :
  exists f : Frame,
    subscribe 2 connected = Val tt (emits [EvSend 0 f] connected) /\
    frame_data f !! "channel_data" = Some "user:42" /\
    frame_data f !! "auth" = Some "key:hmac(secret,1.1:presence-room:user:42)".
Proof.
  destruct (presence_subscribe_signs_locally connected 2 0
              (mkChannel "presence-room" false None) (mkConnection "1.1") "user:42")
    as (f & Hrun & _ & _ & Hdata & Hauth); try (vm_compute; reflexivity).
  exists f. split; [exact Hrun|]. split; [exact Hdata | exact Hauth].
Defined.

Lemma connection_established_witness :
  (exists s' : Client,
     step (OnMessage established) awaiting = Running s' /\
     conns s' !! 0 = Some (mkConnection "1.1") /\
     Connected s' = true /\
     length (wire (trace s')) = 3) /\
  (exists (s' : Client) (why : string),
     step (OnMessage established) unauthorised = Panicked why s' /\
     Connected s' = true /\
     length (wire (trace s')) < 3).
Proof.
  split.
  - destruct (connection_established_subscribes_until_refused awaiting established 0
                (mkConnection "") "1.1")
      as (s' & frames & Hsid & Hflag & _ & _ & _ & Hwire & Hcase).
    + vm_compute; reflexivity.
    + vm_compute; reflexivity.
    + vm_compute; reflexivity.
    + vm_compute; reflexivity.
    + repeat (constructor; [eexists; vm_compute; reflexivity|]). constructor.
    + assert (forallb (signable awaiting "1.1") (pending awaiting) = true) as E
        by (vm_compute; reflexivity).
      rewrite E in Hcase. destruct Hcase as [Hstep Hall].
      exists s'. split; [exact Hstep|]. split; [exact Hsid|]. split; [exact Hflag|].
      rewrite Hwire, length_app. apply Forall2_length in Hall.
      rewrite <- Hall. vm_compute; reflexivity.
  - destruct (connection_established_subscribes_until_refused unauthorised established 0
                (mkConnection "") "1.1")
      as (s' & frames & _ & Hflag & _ & _ & _ & Hwire & Hcase).
    + vm_compute; reflexivity.
    + vm_compute; reflexivity.
    + vm_compute; reflexivity.
    + vm_compute; reflexivity.
    + repeat (constructor; [eexists; vm_compute; reflexivity|]). constructor.
    + assert (forallb (signable unauthorised "1.1") (pending unauthorised) = false) as E
        by (vm_compute; reflexivity).
      rewrite E in Hcase. destruct Hcase as ([why Hstep] & _ & Hlt).
      exists s', why. split; [exact Hstep|]. split; [exact Hflag|].
      rewrite Hwire, length_app. exact Hlt.
Defined.


Lemma subscribe_after_close_witness :
  exists s' s'' : Client,
    run [AClose; ATimer DialErr; AUnsubscribe "updates"] connected = Running s' /\
    Connected s' = true /\
    connection_ s' = None /\
    perform (ASubscribe "news") s' = Panicked nil_dereference s''.
Proof.
  eexists. 
  destruct (subscribe_after_close_faults connected
              [ATimer DialErr; AUnsubscribe "updates"]
              (state_of (run [AClose; ATimer DialErr; AUnsubscribe "updates"] connected))
              "news")
    as (Hflag & Hnil & s'' & Hpanic & _).
  - vm_compute; reflexivity.
  - vm_compute; reflexivity.
  - repeat (constructor; [discriminate|]). constructor.
  - exists s''. split; [vm_compute; reflexivity|].
    split; [exact Hflag|]. split; [exact Hnil | exact Hpanic].
Defined.

Lemma undecodable_frame_witness :
  (decode "junk" = (zeroEvent, Some "invalid character") /\
   step (OnMessage "junk") listening =
     Running (emits [EvHandler 0 "" "" (DString "")] listening)) /\
  (snd (decode mistyped_established) <> None /\
   Connected awaiting = false /\
   Connected (state_of (step (OnMessage mistyped_established) awaiting)) = true).
Proof.
  split.
  - split; [reflexivity|].
    destruct (undecodable_frame_is_processed listening "junk" "invalid character")
      as (_ & Hzero & _); [reflexivity|].
    destruct Hzero as (Hstep & _); [reflexivity | exact Hstep].
  - split; [vm_compute; discriminate|]. split; [reflexivity|].
    destruct (undecodable_frame_is_processed awaiting mistyped_established
                "json: cannot unmarshal object into Go struct field Event.data of type string")
      as (_ & _ & Hestablished); [reflexivity|].
    destruct (Hestablished eq_refl 0 (mkConnection "")) as [Hflag _];
      [reflexivity | reflexivity | exact Hflag].
Defined.

Lemma Disconnect_witness :
  exists x : Sys,
    sys_run ([Accept (ATimer DialOk); Finish; Accept (AMessage established); Finish]
             ++ Accept ADisconnect :: [Finish]) (start cfg me) = Some x /\
    pc x = LoopReturned /\
    connection_ (client x) = None /\
    connectTimer (client x) = None.
Proof.
  exists (after (perform ADisconnect
            (state_of (run [ATimer DialOk; AMessage established] fresh)))).
  assert (sys_run ([Accept (ATimer DialOk); Finish; Accept (AMessage established); Finish]
             ++ Accept ADisconnect :: [Finish]) (start cfg me) =
          Some (after (perform ADisconnect
            (state_of (run [ATimer DialOk; AMessage established] fresh))))) as Hrun
    by (vm_compute; reflexivity).
  split; [exact Hrun|]. split; [vm_compute; reflexivity|].
  destruct (Disconnect_returns_on_acceptance _ _ _ _ Hrun) as (s & _ & _ & _ & _ & Hdone).
  apply Hdone. vm_compute; reflexivity.
Defined.

(** *** Where the specification and the code part ways *)


(** The subscribe guard is the [Connected] flag, which a closure does not
    clear: once the client has been connected, lost the transport and
    dialled again, a [Subscribe] request is sent on the new connection
    while connection-established is still awaited. *)
Example subscribe_sent_after_redial :
  state_after ([ATimer DialOk; AMessage established; AClose; ATimer DialOk]
               ++ [ASubscribe "updates"]) = AwaitingEstablished /\
  sent_by (ASubscribe "updates")
          (state_of (run [ATimer DialOk; AMessage established; AClose; ATimer DialOk]
                         fresh)) =
    [(1, mkFrame "pusher:subscribe" {[ "channel" := "updates" ]} None)].
Proof. split; vm_compute; reflexivity. Qed.

(** C4: on a client made with [New], which has no authorisation callback,
    connection-established with a private channel pending panics the loop
    after the first frame; the channels behind it are never subscribed. *)
Lemma established_panics_without_AuthFunc :
  (exists s' : Client,
     step (OnMessage established) unauthorised = Panicked nil_dereference s' /\
     Connected s' = true /\
     pending unauthorised = [0; 1; 2] /\
     map (fun cf => frame_data cf.2 !! "channel") (wire (trace s')) = [Some "updates"]) /\
  ~ established_subscribes_all_pending.
Proof.
  split.
  - eexists. split; [vm_compute; reflexivity|]. vm_compute. repeat split.
  - intros H.
    destruct (H (mkConfig "wss" "ws.pusherapp.com" "443" "key" "" None) me
                [ATimer DialOk; ASubscribe "updates"; ASubscribe "private-orders";
                 ASubscribe "news"]
                unauthorised established 0)
      as (s' & Hstep & _).
    + vm_compute; reflexivity.
    + vm_compute; reflexivity.
    + vm_compute; reflexivity.
    + vm_compute in Hstep. discriminate Hstep.
Qed.

(** C2: with a subscribed channel, the instant [Disconnect()] is released
    the loop has not run any teardown: it has not returned and the channel
    still reports subscribed. *)
Lemma Disconnect_released_before_teardown :
  (exists x : Sys,
     sys_run [Accept (ATimer DialOk); Finish; Accept (ASubscribe "updates"); Finish;
              Accept (AMessage established); Finish;
              Accept (AMessage (succeeded "updates")); Finish;
              Accept ADisconnect] (start cfg me) = Some x /\
     pc x = InCase DisconnectReq /\
     Channels (client x) = [0] /\
     reports_subscribed (client x) 0 = true) /\
  ~ Disconnect_returns_after_teardown.
Proof.
  split.
  - eexists. split; [vm_compute; reflexivity|]. vm_compute. repeat split.
  - intros H.
    destruct (sys_run [Accept (ATimer DialOk); Finish; Accept (ASubscribe "updates");
                       Finish; Accept (AMessage established); Finish;
                       Accept (AMessage (succeeded "updates")); Finish;
                       Accept ADisconnect] (start cfg me)) as [x|] eqn:E;
      [|vm_compute in E; discriminate E].
    destruct (H cfg me _ x E) as [Hpc _].
    { do 8 right. left. reflexivity. }
    vm_compute in E. injection E as <-. discriminate Hpc.
Qed.

(** C9: a frame that does not decode still reaches the global listener. *)
Lemma undecodable_frame_reaches_listener :
  snd (decode "junk") = Some "invalid character" /\
  deliveries (trace (state_of (step (OnMessage "junk") listening))) =
    [EvHandler 0 "" "" (DString "")] /\
  deliveries (trace listening) = [] /\
  ~ dropped_silently.
Proof.
  split; [reflexivity|]. split; [vm_compute; reflexivity|]. split; [reflexivity|].
  intros H.
  destruct (H listening "junk" "invalid character" eq_refl)
    as (s' & Hstep & _ & _ & _ & _ & _ & Hdel).
  vm_compute in Hstep. injection Hstep as <-. vm_compute in Hdel. discriminate Hdel.
Qed.

(** *** The further properties, on the sample client *)

Lemma Unsubscribe_idle_witness :
  step (UnsubscribeReq "updates") requested = Running requested.
Proof.
  apply (Unsubscribe_idle_changes_nothing requested "updates").
  - unfold registry_valid. vm_compute. repeat constructor.
  - left. vm_compute; reflexivity.
Defined.

Lemma Unsubscribe_sends_witness :
  exists s' : Client,
    step (UnsubscribeReq "updates") connected = Running s' /\
    wire (trace s') = wire (trace connected) ++
      [(0, mkFrame "pusher:unsubscribe" {[ "channel" := "updates" ]} None)] /\
    reports_subscribed s' 0 = false.
Proof.
  destruct (Unsubscribe_sends_and_marks connected "updates" 0 (mkConnection "1.1"))
    as (s' & Hstep & Hwire & Hflags & _).
  - unfold registry_valid. vm_compute. repeat constructor.
  - vm_compute; reflexivity.
  - vm_compute; reflexivity.
  - exists s'. split; [exact Hstep|]. split; [exact Hwire|].
    change (named connected "updates") with [0] in Hflags.
    now inversion Hflags.
Defined.

Lemma subscription_succeeded_witness :
  exists s' : Client,
    step (OnMessage (succeeded "presence-room")) connected = Running s' /\
    wire (trace s') = wire (trace connected) /\
    names s' = names connected.
Proof.
  destruct (subscription_succeeded_marks_channel connected (succeeded "presence-room"))
    as (s' & Hstep & _ & _ & Hn & _ & Hw & _).
  - vm_compute; reflexivity.
  - unfold registry_valid. vm_compute. repeat constructor.
  - exists s'. auto.
Defined.

Lemma member_event_witness :
  step (OnMessage "pusher_internal:member_added|presence-room|7") listening =
    Running (emits [EvHandler 0 "presence-room" "pusher:member_added"
                      (DMember (mkMember "7" ""))] listening).
Proof.
  etransitivity.
  - apply (member_event_is_renamed listening
             "pusher_internal:member_added|presence-room|7" true).
    vm_compute; reflexivity.
  - vm_compute; reflexivity.
Defined.

Lemma application_event_witness :
  step (OnMessage "price|updates|42") listening =
    Running (emits [EvHandler 0 "updates" "price" (DString "42")] listening).
Proof.
  etransitivity.
  - refine (proj1 (application_event_is_forwarded listening "price|updates|42" _)).
    vm_compute; reflexivity.
  - vm_compute; reflexivity.
Defined.

Lemma dial_failures_witness :
  run (replicate 3 (ATimer DialErr)) fresh =
    Running (set_connectTimer (Some 1) (emits [EvDial; EvDial; EvDial] fresh)).
Proof.
  etransitivity.
  - apply (dial_failures_retry_forever 2 fresh). discriminate.
  - vm_compute; reflexivity.
Defined.

Lemma reconnect_pending_witness :
  dial_pending_iff_no_handle
    (state_of (run [ATimer DialOk; AMessage established; AClose] fresh)).
Proof.
  apply (reconnect_pending_iff_no_connection cfg me
           [ATimer DialOk; AMessage established; AClose]).
  vm_compute; reflexivity.
Defined.

Lemma registry_only_grows_witness :
  exists more,
    Channels (state_of (run [AUnsubscribe "updates"; AClose; ASubscribe "news"] connected))
    = Channels connected ++ more.
Proof.
  destruct (registry_only_grows [AUnsubscribe "updates"; AClose; ASubscribe "news"]
              connected) as (H & _).
  - unfold registry_valid. vm_compute. repeat constructor.
  - exact H.
Defined.

Lemma Subscribe_handle_witness :
  Subscribe "updates"
    (state_of (run [ATimer DialOk; ASubscribe "news"; AMessage established; AClose]
                   (state_of (perform (ASubscribe "updates") fresh)))) =
  (0, state_of (run [ATimer DialOk; ASubscribe "news"; AMessage established; AClose]
                    (state_of (perform (ASubscribe "updates") fresh)))).
Proof.
  apply (Subscribe_handle_is_permanent fresh
           (state_of (perform (ASubscribe "updates") fresh)) "updates").
  - constructor.
  - vm_compute; reflexivity.
Defined.

Lemma subscribe_outcome_witness :
  exists (es : list Effect) (f : Frame),
    subscribe 1 connected = Val tt (emits es connected) /\
    wire es = [(0, f)] /\
    subscribe_frame_for 0 "private-orders" (0, f).
Proof.
  apply (subscribe_sends_one_frame_or_panics connected 1 0
           (mkChannel "private-orders" false None) (mkConnection "1.1"));
    vm_compute; reflexivity.
Defined.

Lemma Subscribe_public_witness :
  exists s' : Client,
    perform (ASubscribe "news") connected = Running s' /\
    trace s' = trace connected ++
      [EvSend 0 (mkFrame "pusher:subscribe" {[ "channel" := "news" ]} None)] /\
    Channels s' = [0; 1; 2; 3].
Proof.
  apply (Subscribe_public_while_connected connected "news" 0 (mkConnection "1.1"));
    vm_compute; reflexivity.
Defined.

Lemma Subscribe_deferred_witness :
  exists s' : Client,
    perform (ASubscribe "private-orders") fresh = Running s' /\
    trace s' = [] /\
    Channels s' = [0].
Proof.
  destruct (Subscribe_before_connected_is_deferred fresh "private-orders")
    as (s' & Hrun & Ht & Hl & _).
  - reflexivity.
  - exists s'. auto.
Defined.

Lemma reconnection_witness :
  exists s' : Client,
    run [AClose; ATimer DialOk; AMessage established] connected = Running s' /\
    connection_ s' = Some 1 /\
    length (wire (trace s')) = 6.
Proof.
  destruct (reconnection_resubscribes_every_channel connected established)
    as (s' & Hrun & Hc & _ & _ & _ & frames & Hw & Hall).
  - vm_compute; reflexivity.
  - unfold registry_valid. vm_compute. repeat constructor.
  - repeat (constructor; [vm_compute; reflexivity|]). constructor.
  - exists s'. split; [exact Hrun|]. split; [exact Hc|].
    rewrite Hw, length_app. apply Forall2_length in Hall. rewrite <- Hall.
    vm_compute; reflexivity.
Defined.

Lemma Disconnect_completes_witness :
  exists s' : Client,
    run [ADisconnect; ASubscribe "news"] connected = Exited s' /\
    trace s' = trace connected ++ [EvWsClose 0; EvAck] /\
    Channels s' = [0; 1; 2].
Proof.
  destruct (Disconnect_with_transport_completes connected 0 (mkConnection "1.1")
              [ASubscribe "news"]) as (s' & Hrun & _ & Ht & _ & _ & Hl).
  - vm_compute; reflexivity.
  - vm_compute; reflexivity.
  - exists s'. auto.
Defined.

Lemma established_without_connection_witness :
  step (OnMessage established) requested = Panicked nil_dereference requested.
Proof.
  apply (established_without_connection_panics requested established).
  - vm_compute; reflexivity.
  - vm_compute; reflexivity.
Defined.

Lemma BindGlobal_witness :
  exists handlers,
    Permutation handlers [1; 0] /\
    run [ABindGlobal; AMessage "price|updates|42"] listening =
      Running (emits
        (map (fun handler => EvHandler handler "updates" "price" (DString "42"))
             handlers)
        (BindGlobal listening).2).
Proof.
  destruct (BindGlobal_listener_receives_next_event listening "price|updates|42")
    as (handlers & Hperm & Hrun); [vm_compute; reflexivity|].
  exists handlers. split; [exact Hperm | exact Hrun].
Defined.

Lemma no_subscribe_before_established_witness :
  Connected (state_of (run [ATimer DialOk; ASubscribe "updates"; AUnsubscribe "updates"]
                           fresh)) = false /\
  Forall (fun cf => frame_event cf.2 = "pusher:unsubscribe")
    (wire (trace (state_of (run [ATimer DialOk; ASubscribe "updates";
                                 AUnsubscribe "updates"] fresh)))).
Proof.
  apply (no_subscribe_before_established cfg me
           [ATimer DialOk; ASubscribe "updates"; AUnsubscribe "updates"]).
  repeat constructor.
Defined.
